(** * STCPSCE: static transaction chopping over a Go syntax tree

    A shallow embedding of [finder.go].  The analysis works on the generic
    tree [Ast] that [BuildAst] derives from a [go/ast] file by reflection;
    every function below is the Rocq rendering of the Go function of the
    same name.  A Go run-time panic (an index out of range) is the value
    [None] of the [option] monad. *)

From Stdlib Require Import String Ascii List ZArith Lia Bool.
From stdpp Require Import base option list strings gmap pretty sorting.

Local Open Scope string_scope.
Local Open Scope list_scope.

(** ** The tree *)

(** [type Ast struct { Label; Pos; End; Attrs; Children }].  [End] is a
    vernacular keyword, hence [End_]. *)
#[local] Unset Elimination Schemes.
Inductive Ast : Type := mkAst {
  Label : string;
  Pos : Z;
  End_ : Z;
  Attrs : gmap string string;
  Children : list Ast
}.
#[local] Set Elimination Schemes.

(** Go's [m[k]] on a [map[string]string]: the empty string when absent. *)
Definition attr (a : Ast) (k : string) : string := default "" (Attrs a !! k).

(** [strings.Contains(s, substr)]. *)
Fixpoint Contains (s substr : string) : bool :=
  String.prefix substr s ||
  match s with
  | EmptyString => false
  | String _ s' => Contains s' substr
  end.

(** ** Structural equivalence *)

Definition isBasicLabel (ast : Ast) : bool :=
  if Contains (Label ast) "Fun" then false
  else if Contains (Label ast) "Key" then false
  else if Contains (Label ast) "Type" then false
  else if Contains (Label ast) "*ast.Ident" then true
  else if Contains (Label ast) "*ast.SelectorExpr" then true
  else false.

(** The test of the first branch of [astNodeEqual]. *)
Definition nameBearing (ast : Ast) : bool := Contains (Label ast) "Name".

(** In the second branch the loop runs over the children of [ast1]; the
    lengths are equal there. *)
Fixpoint astNodeEqual (ast1 ast2 : Ast) : bool :=
  if nameBearing ast1 && nameBearing ast2 then
    String.eqb (attr ast1 "Name") (attr ast2 "Name")
  else if Nat.eqb (length (Children ast1)) (length (Children ast2)) then
    (fix children (l1 l2 : list Ast) {struct l1} : bool :=
       match l1, l2 with
       | x :: l1', y :: l2' => if astNodeEqual x y then children l1' l2' else false
       | _, _ => true
       end) (Children ast1) (Children ast2)
  else false.

(** The inner loop, named. *)
Fixpoint childrenEqual (l1 l2 : list Ast) : bool :=
  match l1, l2 with
  | x :: l1', y :: l2' => if astNodeEqual x y then childrenEqual l1' l2' else false
  | _, _ => true
  end.

(** ** Indexing

    [ast.Children[i]] panics when [i] is out of range; indices computed as
    [len(...) - k] may be negative, so they are integers. *)
Definition len (ast : Ast) : Z := Z.of_nat (length (Children ast)).

Definition child (ast : Ast) (i : Z) : option Ast :=
  if (i <? 0)%Z then None else Children ast !! Z.to_nat i.

(** ** Label lists

    The label lists are [container/list] lists of node handles.  [Remove(e)]
    unlinks [e] and clears its [next] and [list] fields, so that [e.Next()]
    is [nil] afterwards: a loop [for e := l.Front(); e != nil; e = e.Next()]
    whose body removes [e] ends with that iteration. *)

(** The loop [for e := ...; e != nil; e = e.Next() { if astNodeEqual(x, e) {
    labels.Remove(e); flag = true } }]: the list after the loop, and whether
    an element was removed. *)
Fixpoint removeFirstEqual (x : Ast) (labels : list Ast) : list Ast * bool :=
  match labels with
  | [] => ([], false)
  | e :: rest =>
    if astNodeEqual x e then (rest, true)
    else let '(rest', flag) := removeFirstEqual x rest in (e :: rest', flag)
  end.

(** [trimList]: the outer cursor [x] walks the list as it is after the inner
    loop of the element before it.  The fuel is the length of the list. *)
Fixpoint trimList_from (fuel : nat) (labels : list Ast) : list Ast :=
  match fuel, labels with
  | S fuel', x :: rest => x :: trimList_from fuel' (fst (removeFirstEqual x rest))
  | _, _ => labels
  end.

Definition trimList (labels : list Ast) : list Ast :=
  trimList_from (length labels) labels.

Definition memberOf (x : Ast) (labels : list Ast) : bool :=
  existsb (astNodeEqual x) labels.

Fixpoint addLabelsInConditionStatement (ast : Ast) : list Ast :=
  flat_map (λ c, if isBasicLabel c then [c] else addLabelsInConditionStatement c)
           (Children ast).

Fixpoint addLabelsInLeftValue (ast : Ast) : list Ast :=
  flat_map (λ c, if isBasicLabel c then [c] else addLabelsInLeftValue c)
           (Children ast).

Definition checkLabelsInAssignStatementLeftHandedSide (ast : Ast) (labels : list Ast) : bool :=
  existsb (λ c, memberOf c labels) (Children ast).

(** The loop over the children of the right-hand side; [cs] is what is left
    of [ast.Children].  The inner loop over the call's arguments returns in
    its first iteration. *)
Fixpoint checkRightHandedSide_from (cs functionArguments labels : list Ast) : option bool :=
  match cs with
  | [] => Some true
  | c :: cs' =>
    if Contains (Label c) "BasicLit" then Some false
    else if Contains (Label c) "*ast.Ident" then
      if memberOf c functionArguments then Some false
      else if memberOf c labels then Some false
      else checkRightHandedSide_from cs' functionArguments labels
    else if Contains (Label c) "CallExpr" then
      args ← Children c !! 1%nat;
      match Children args with
      | [] => checkRightHandedSide_from cs' functionArguments labels
      | z :: _ =>
        if memberOf z functionArguments then Some false
        else if memberOf z labels then Some false
        else Some true
      end
    else checkRightHandedSide_from cs' functionArguments labels
  end.

Definition checkLabelsInAssignStatementRightHandedSide
    (ast : Ast) (functionArguments labels : list Ast) : option bool :=
  checkRightHandedSide_from (Children ast) functionArguments labels.

Fixpoint findLabelsInHalfStatements (ast : Ast) : option (list Ast) :=
  (fix loop (cs : list Ast) : option (list Ast) :=
     match cs with
     | [] => Some []
     | c :: cs' =>
       here ← (if Contains (Label c) "CallExpr" then
                 match Children c with
                 | _ :: args :: _ => findLabelsInHalfStatements args
                 | _ => None
                 end
               else if isBasicLabel c then Some [c]
               else findLabelsInHalfStatements c);
       rest ← loop cs';
       Some (here ++ rest)
     end) (Children ast).

(** ** The backward walk *)

(** The loop [for z := range targets { for e := ... { remove, flag } }]. *)
Fixpoint resolveTargets (targets labels : list Ast) (flag : bool) : list Ast * bool :=
  match targets with
  | [] => (labels, flag)
  | z :: targets' =>
    let '(labels', removed) := removeFirstEqual z labels in
    resolveTargets targets' labels' (flag || removed)
  end.

(** Step 1 of [expendKernels]: [n] is [x + 1]; the result is the value of
    [x] after the loop, [-1] when no statement equals the kernel. *)
Fixpoint lastEqual (stmts : list Ast) (kernel : Ast) (n : nat) : Z :=
  match n with
  | O => (-1)%Z
  | S x =>
    match stmts !! x with
    | Some s => if astNodeEqual s kernel then Z.of_nat x else lastEqual stmts kernel x
    | None => lastEqual stmts kernel x
    end
  end.

(** Step 2 of [expendKernels]: [n] is [x + 1] at the loop test. *)
Fixpoint expendWalk (stmts : list Ast) (n : nat) (tempLabels pos : list Ast)
  : option (list Ast) :=
  match n with
  | O => Some pos
  | S x =>
    if Nat.eqb (length tempLabels) 0 then Some pos
    else
      s ← stmts !! x;
      if Contains (Label s) "AssignStmt" then
        lhs ← Children s !! 0%nat;
        let '(tempLabels', flag) := resolveTargets (Children lhs) tempLabels false in
        if flag then
          rhs ← Children s !! 1%nat;
          new ← findLabelsInHalfStatements rhs;
          expendWalk stmts x (trimList (tempLabels' ++ new)) (pos ++ [s])
        else expendWalk stmts x tempLabels' pos
      else expendWalk stmts x tempLabels pos
  end.

Definition expendKernel (ast kernel : Ast) (pos : list Ast) : option (list Ast) :=
  let x := lastEqual (Children ast) kernel (length (Children ast)) in
  s ← child ast x;
  rhs ← Children s !! 1%nat;
  labels ← findLabelsInHalfStatements rhs;
  expendWalk (Children ast) (Z.to_nat x) (trimList labels) (pos ++ [s]).

Fixpoint expendKernels_from (ast : Ast) (kernels pos : list Ast) : option (list Ast) :=
  match kernels with
  | [] => Some pos
  | kernel :: kernels' =>
    pos' ← expendKernel ast kernel pos;
    expendKernels_from ast kernels' pos'
  end.

Definition expendKernels (ast : Ast) (kernels : list Ast) : option (list Ast) :=
  expendKernels_from ast kernels [].

(** ** The candidate detector *)

(** The three accumulators of the scan of one statement list. *)
Record Scan : Type := mkScan {
  labelsInCondition : list Ast;
  labelsInLeftHandedSide : list Ast;
  pos : list Ast
}.

(** One iteration of the loop over a statement list.  The operand of an
    increment is read inside the loop over the condition labels, that is
    only when there is one. *)
Definition scanStatement (functionArguments : list Ast) (st : Scan) (s : Ast) : option Scan :=
  if Contains (Label s) "IfStmt" then
    Some (mkScan (labelsInCondition st ++ addLabelsInConditionStatement s)
                 (labelsInLeftHandedSide st) (pos st))
  else if Contains (Label s) "IncDecStmt" then
    found ← match labelsInCondition st with
            | [] => Some false
            | _ => x ← Children s !! 0%nat; Some (memberOf x (labelsInCondition st))
            end;
    if (found : bool) then Some st
    else Some (mkScan (labelsInCondition st) (labelsInLeftHandedSide st) (pos st ++ [s]))
  else if Contains (Label s) "AssignStmt" then
    if String.eqb (attr s "Tok") ":=" then
      lhs ← Children s !! 0%nat;
      Some (mkScan (labelsInCondition st)
                   (labelsInLeftHandedSide st ++ addLabelsInLeftValue lhs) (pos st))
    else
      lhs ← Children s !! 0%nat;
      if checkLabelsInAssignStatementLeftHandedSide lhs (labelsInCondition st) then Some st
      else
        rhs ← Children s !! 1%nat;
        unresolved ← checkLabelsInAssignStatementRightHandedSide
                       rhs functionArguments (labelsInLeftHandedSide st);
        if (unresolved : bool) then Some st
        else Some (mkScan (labelsInCondition st) (labelsInLeftHandedSide st) (pos st ++ [s]))
  else Some st.

Fixpoint scanStatements (functionArguments : list Ast) (st : Scan) (stmts : list Ast)
  : option Scan :=
  match stmts with
  | [] => Some st
  | s :: stmts' =>
    st' ← scanStatement functionArguments st s;
    scanStatements functionArguments st' stmts'
  end.

Fixpoint findExchangeableSentences (ast : Ast) (functionArguments : list Ast)
  : option (list Ast) :=
  if Contains (Label ast) "List : []ast.Stmt" then
    st ← scanStatements functionArguments (mkScan [] [] []) (Children ast);
    Some (pos st)
  else
    (fix loop (cs : list Ast) : option (list Ast) :=
       match cs with
       | [] => Some []
       | c :: cs' =>
         here ← findExchangeableSentences c functionArguments;
         rest ← loop cs';
         Some (here ++ rest)
       end) (Children ast).

(** Step 1 of [analyzeFunctionDeclaration]: the first name of every entry of
    the parameter list found at [Children[2].Children[0].Children[0]]. *)
Definition firstName (entry : Ast) : option Ast :=
  names ← Children entry !! 0%nat; Children names !! 0%nat.

Definition declaredArguments (ast : Ast) : option (list Ast) :=
  ty ← Children ast !! 2%nat;
  params ← Children ty !! 0%nat;
  fields ← Children params !! 0%nat;
  mapM firstName (Children fields).

Fixpoint analyzeFunctionDeclaration (ast : Ast) : option (list (list Ast)) :=
  if Contains (Label ast) "FuncDecl" then
    arguments ← declaredArguments ast;
    kernels ← findExchangeableSentences ast arguments;
    if Nat.eqb (length kernels) 0 then Some []
    else
      body ← Children ast !! 3%nat;
      stmts ← Children body !! 0%nat;
      chain ← expendKernels stmts kernels;
      Some [chain]
  else
    (fix loop (cs : list Ast) : option (list (list Ast)) :=
       match cs with
       | [] => Some []
       | c :: cs' =>
         here ← analyzeFunctionDeclaration c;
         rest ← loop cs';
         Some (here ++ rest)
       end) (Children ast).

(** The loop of the second branch of [analyzeFunctionDeclaration], named. *)
Fixpoint analyzeEach (cs : list Ast) : option (list (list Ast)) :=
  match cs with
  | [] => Some []
  | c :: cs' =>
    here ← analyzeFunctionDeclaration c;
    rest ← analyzeEach cs';
    Some (here ++ rest)
  end.

(** ** Ledger read/write positions *)

(** [map[string][]int]: an absent key reads as the [nil] slice. *)
Abbreviation PositionMap := (gmap string (list nat)).

Fixpoint findGetOrPutStateExpression (ast : Ast) (GetStateMap : PositionMap) (isGet : bool)
  : option (list nat) :=
  here ← (if Contains (Label ast) "CallExpr" then
            fn ← Children ast !! 0%nat;
            if Contains (Label fn) "SelectorExpr" then
              sel ← Children fn !! 1%nat;
              if isGet then
                Some (if String.eqb (attr sel "Name") "GetState" then [0%nat] else [])
              else
                Some (if String.eqb (attr sel "Name") "PutState" then [0%nat] else [])
            else Some (default [] (GetStateMap !! attr fn "Name"))
          else Some []);
  below ← (fix loop (cs : list Ast) : option (list nat) :=
             match cs with
             | [] => Some []
             | c :: cs' =>
               r ← findGetOrPutStateExpression c GetStateMap isGet;
               rest ← loop cs';
               Some (r ++ rest)
             end) (Children ast);
  Some (here ++ below).

(** The node pushed for one position: the statement's last child, its first
    child, the second child of that, and the child at the position. *)
Definition trackedArgument (s : Ast) (p : nat) : option Ast :=
  half ← child s (len s - 1);
  call ← Children half !! 0%nat;
  args ← Children call !! 1%nat;
  Children args !! p.

(** The backward loop of [findGetOrPutStateList]; [n] is [x + 1]. *)
Fixpoint collectStateLabels (stmts : list Ast) (n : nat) (GetStateMap : PositionMap)
    (isGet : bool) (tempLabels : list Ast) : option (list Ast) :=
  match n with
  | O => Some tempLabels
  | S x =>
    s ← stmts !! x;
    argumentsPosition ← findGetOrPutStateExpression s GetStateMap isGet;
    if negb (Nat.eqb (length argumentsPosition) 0) then
      tracked ← mapM (trackedArgument s) argumentsPosition;
      collectStateLabels stmts x GetStateMap isGet (trimList (tempLabels ++ tracked))
    else if Contains (Label s) "AssignStmt" then
      lhs ← Children s !! 0%nat;
      let '(tempLabels', flag) := resolveTargets (Children lhs) tempLabels false in
      if flag then
        rhs ← child s (len s - 1);
        new ← findLabelsInHalfStatements rhs;
        collectStateLabels stmts x GetStateMap isGet (trimList (tempLabels' ++ new))
      else collectStateLabels stmts x GetStateMap isGet tempLabels'
    else collectStateLabels stmts x GetStateMap isGet tempLabels
  end.

(** The loop that replaces a selector or index label by its first child: the
    replaced element is removed inside the loop, which ends there. *)
Fixpoint reduceToBase (labels : list Ast) : option (list Ast) :=
  match labels with
  | [] => Some []
  | e :: rest =>
    if Contains (Label e) "SelectorExpr" || Contains (Label e) "IndexExpr" then
      base ← Children e !! 0%nat;
      Some (rest ++ [base])
    else
      rest' ← reduceToBase rest;
      Some (e :: rest')
  end.

(** [x] is appended once for every label equal to [arguments[x]]. *)
Fixpoint matchArguments (x : nat) (arguments labels : list Ast) : list nat :=
  match arguments with
  | [] => []
  | a :: arguments' =>
    map (λ _, x) (List.filter (astNodeEqual a) labels)
    ++ matchArguments (S x) arguments' labels
  end.

Definition findGetOrPutStateList (ast : Ast) (GetStateMap : PositionMap)
    (arguments : list Ast) (isGet : bool) : option (list nat) :=
  tempLabels ← collectStateLabels (Children ast) (length (Children ast)) GetStateMap isGet [];
  reduced ← reduceToBase tempLabels;
  Some (matchArguments 0 arguments (trimList reduced)).

(** The parameter names as phase 2 reads them, from the child before the
    last. *)
Definition declaredArgumentsFromEnd (decl : Ast) : option (list Ast) :=
  ty ← child decl (len decl - 2);
  params ← Children ty !! 0%nat;
  fields ← Children params !! 0%nat;
  mapM firstName (Children fields).

(** The two maps and the changed flag. *)
Record Sweep : Type := mkSweep {
  GetStateMap : PositionMap;
  PutStateMap : PositionMap;
  flag : bool
}.

(** The body of the loop over the declarations, for one declaration.
    [reflect.DeepEqual] of the stored slice and a computed one holds exactly
    when the key is present with that value: a computed slice is never
    [nil].  The second update also reads the callee positions from
    [GetStateMap]. *)
Definition sweepDeclaration (st : Sweep) (decl : Ast) : option Sweep :=
  if Contains (Label decl) "FuncDecl" then
    arguments ← declaredArgumentsFromEnd decl;
    name ← child decl (len decl - 3);
    body ← child decl (len decl - 1);
    stmts ← Children body !! 0%nat;
    gets ← findGetOrPutStateList stmts (GetStateMap st) arguments true;
    let st1 :=
      if decide (GetStateMap st !! attr name "Name" = Some gets) then st
      else mkSweep (<[attr name "Name" := gets]> (GetStateMap st)) (PutStateMap st) true in
    puts ← findGetOrPutStateList stmts (GetStateMap st1) arguments false;
    Some (if decide (PutStateMap st1 !! attr name "Name" = Some puts) then st1
          else mkSweep (GetStateMap st1) (<[attr name "Name" := puts]> (PutStateMap st1)) true)
  else Some st.

Fixpoint sweepDeclarations (st : Sweep) (decls : list Ast) : option Sweep :=
  match decls with
  | [] => Some st
  | decl :: decls' => st' ← sweepDeclaration st decl; sweepDeclarations st' decls'
  end.

(** One pass of the outer loop: the flag is cleared, then every declaration
    is visited. *)
Definition sweep (ast : Ast) (G P : PositionMap) : option Sweep :=
  sweepDeclarations (mkSweep G P false) (Children ast).

(** How a bounded run of the outer loop ends. *)
Inductive Run (A : Type) : Type :=
| Returned (a : A)
| Panicked
| StillRunning.
Arguments Returned {A} a.
Arguments Panicked {A}.
Arguments StillRunning {A}.

(** [for flag := true; flag; { ... }] run for at most [fuel] passes. *)
Fixpoint analyzeReadWriteAPI_from (fuel : nat) (ast : Ast) (G P : PositionMap)
  : Run (PositionMap * PositionMap) :=
  match fuel with
  | O => StillRunning
  | S fuel' =>
    match sweep ast G P with
    | None => Panicked
    | Some st =>
      if flag st then analyzeReadWriteAPI_from fuel' ast (GetStateMap st) (PutStateMap st)
      else Returned (GetStateMap st, PutStateMap st)
    end
  end.

Definition analyzeReadWriteAPI (fuel : nat) (ast : Ast) : Run (PositionMap * PositionMap) :=
  analyzeReadWriteAPI_from fuel ast ∅ ∅.

(** The maps after [n] passes, whatever the flags. *)
Fixpoint afterSweeps (n : nat) (ast : Ast) : option Sweep :=
  match n with
  | O => Some (mkSweep ∅ ∅ true)
  | S n' => st ← afterSweeps n' ast; sweep ast (GetStateMap st) (PutStateMap st)
  end.

(** ** The trees [BuildAst] yields

    [BuildAst(prefix, n)] walks a [go/ast] value by reflection.  For a
    pointer to a struct it makes one node: the struct's fields are visited in
    declaration order; a [nil] pointer field is skipped; a field holding a
    node, a struct or a slice becomes a child, built with the field's name as
    prefix; every other field is printed into [Attrs] under its name.  A
    slice becomes a node whose children are its elements, built with their
    index as prefix.

    [Label(prefix, n)] is the prefix and [" : "], then the Go type of [n],
    then, for a struct, the fields named [Name], [Kind], [Tok], [Op] printed
    as [" (Name: v, ...)"] in declaration order, and for a slice
    ["(len = k)"].

    The constructors below are named after the [go/ast] types they stand
    for; each is a function of the prefix under which the node is built.
    The fields of type [token.Pos] (and [Pos], [End]) depend on the layout of
    the source text and are read by the printing in [Parse] only; they are 0
    here and left out of [Attrs]. *)

Definition Node : Type := string → Ast.

Definition LabelStruct (prefix ty : string) (fs : list (string * string)) : string :=
  (if String.eqb prefix "" then "" else prefix +:+ " : ") +:+ ty +:+
  match fs with
  | [] => ""
  | _ => " (" +:+ String.concat ", " (map (λ f, fst f +:+ ": " +:+ snd f) fs) +:+ ")"
  end.

Definition LabelSlice (prefix ty : string) (k : nat) : string :=
  (if String.eqb prefix "" then "" else prefix +:+ " : ") +:+ ty +:+
  "(len = " +:+ pretty k +:+ ")".

Definition struct (ty : string) (fs : list (string * string)) (children : list Ast) : Node :=
  λ prefix, mkAst (LabelStruct prefix ty fs) 0 0 (list_to_map fs) children.

Definition slice (ty : string) (elems : list Node) : Node :=
  λ prefix, mkAst (LabelSlice prefix ty (length elems)) 0 0 ∅
                  (imap (λ i (e : Node), e (pretty i)) elems).

(** A pointer field that may be [nil]. *)
Definition optional (field : string) (n : option Node) : list Ast :=
  match n with Some n => [n field] | None => [] end.

(** [Object { Kind; Name; Decl; Data; Type }]: no field becomes a child;
    the printed [Decl], [Data] and [Type] are left out of [Attrs]. *)
Definition Object (kind name : string) : Node :=
  struct "*ast.Object" [("Kind", kind); ("Name", name)] [].

(** [Ident { NamePos; Name; Obj *Object }]; [obj] is the kind of the object
    the parser resolved the identifier to, if it did. *)
Definition Ident (name : string) (obj : option string) : Node :=
  struct "*ast.Ident" [("Name", name)]
         (optional "Obj" ((λ kind, Object kind name) <$> obj)).

(** [BasicLit { ValuePos; Kind; Value }]. *)
Definition BasicLit (kind value : string) : Node :=
  λ prefix, mkAst (LabelStruct prefix "*ast.BasicLit" [("Kind", kind)]) 0 0
                  (list_to_map [("Kind", kind); ("Value", value)]) [].

(** [BinaryExpr { X; OpPos; Op; Y }]. *)
Definition BinaryExpr (x : Node) (op : string) (y : Node) : Node :=
  struct "*ast.BinaryExpr" [("Op", op)] [x "X"; y "Y"].

(** [SelectorExpr { X Expr; Sel *Ident }]; the parser never resolves [Sel]. *)
Definition SelectorExpr (x : Node) (sel : string) : Node :=
  struct "*ast.SelectorExpr" [] [x "X"; Ident sel None "Sel"].

(** [CallExpr { Fun; Lparen; Args []Expr; Ellipsis; Rparen }]. *)
Definition CallExpr (fn : Node) (args : list Node) : Node :=
  struct "*ast.CallExpr" [] [fn "Fun"; slice "[]ast.Expr" args "Args"].

(** [AssignStmt { Lhs []Expr; TokPos; Tok; Rhs []Expr }]. *)
Definition AssignStmt (lhs : list Node) (tok : string) (rhs : list Node) : Node :=
  struct "*ast.AssignStmt" [("Tok", tok)]
         [slice "[]ast.Expr" lhs "Lhs"; slice "[]ast.Expr" rhs "Rhs"].

(** [IncDecStmt { X Expr; TokPos; Tok }]. *)
Definition IncDecStmt (x : Node) (tok : string) : Node :=
  struct "*ast.IncDecStmt" [("Tok", tok)] [x "X"].

(** [ExprStmt { X Expr }]. *)
Definition ExprStmt (x : Node) : Node :=
  struct "*ast.ExprStmt" [] [x "X"].

(** [ReturnStmt { Return; Results []Expr }]. *)
Definition ReturnStmt (results : list Node) : Node :=
  struct "*ast.ReturnStmt" [] [slice "[]ast.Expr" results "Results"].

(** [BlockStmt { Lbrace; List []Stmt; Rbrace }]. *)
Definition BlockStmt (stmts : list Node) : Node :=
  struct "*ast.BlockStmt" [] [slice "[]ast.Stmt" stmts "List"].

(** [IfStmt { If; Init Stmt; Cond Expr; Body *BlockStmt; Else Stmt }] without
    [Init] and [Else]: a [nil] interface field is printed into [Attrs]. *)
Definition IfStmt (cond : Node) (body : list Node) : Node :=
  λ prefix, mkAst (LabelStruct prefix "*ast.IfStmt" []) 0 0
                  (list_to_map [("Init", "<nil>"); ("Else", "<nil>")])
                  [cond "Cond"; BlockStmt body "Body"].

(** [Field { Doc; Names []*Ident; Type Expr; Tag; Comment }]: a parameter
    declares its names, which the parser resolves to themselves. *)
Definition Field (names : list string) (ty : Node) : Node :=
  struct "*ast.Field" []
         [slice "[]*ast.Ident" (map (λ n, Ident n (Some "var")) names) "Names"; ty "Type"].

(** [FieldList { Opening; List []*Field; Closing }]. *)
Definition FieldList (fields : list Node) : Node :=
  struct "*ast.FieldList" [] [slice "[]*ast.Field" fields "List"].

(** [FuncType { Func; TypeParams; Params; Results *FieldList }]. *)
Definition FuncType (params : list Node) (results : option (list Node)) : Node :=
  struct "*ast.FuncType" []
         (FieldList params "Params" :: optional "Results" (FieldList <$> results)).

(** [CommentGroup { List []*Comment }], [Comment { Slash; Text }]. *)
Definition CommentGroup (text : string) : Node :=
  struct "*ast.CommentGroup" []
         [slice "[]*ast.Comment"
                [λ prefix, mkAst (LabelStruct prefix "*ast.Comment" []) 0 0
                                 (list_to_map [("Text", text)]) []] "List"].

(** [FuncDecl { Doc *CommentGroup; Recv *FieldList; Name *Ident;
    Type *FuncType; Body *BlockStmt }].  [Label] prints the [Name] field, an
    [*ast.Ident], by its [String] method; [BuildAst] makes the field a child
    and records no attribute for it. *)
Definition FuncDecl (doc : option string) (recv : option (list Node)) (name : string)
    (params : list Node) (results : option (list Node)) (body : list Node) : Node :=
  λ prefix, mkAst (LabelStruct prefix "*ast.FuncDecl" [("Name", name)]) 0 0 ∅
                  (optional "Doc" (CommentGroup <$> doc) ++
                   optional "Recv" (FieldList <$> recv) ++
                   [Ident name (Some "func") "Name"; FuncType params results "Type";
                    BlockStmt body "Body"]).

(** The [Decls] field of an [ast.File]: the node [Parse] hands to
    [analyzeReadWriteAPI]. *)
Definition Decls (decls : list Node) : Ast := slice "[]ast.Decl" decls "Decls".

(** ** Programs

    The programs the properties below are evaluated on, as the trees of their
    Go text.  Parameters and locals are resolved by the parser ([var]);
    predeclared types and names declared in another file ([stub], [c]) are
    not. *)

Definition var (name : string) : Node := Ident name (Some "var").
Definition free (name : string) : Node := Ident name None.

Module Programs.

(** [func f(a int, b int) { x := a + 1; b = x }], with or without a doc
    comment. *)
Definition f_params : list Node := [Field ["a"] (free "int"); Field ["b"] (free "int")].
Definition f_body : list Node :=
  [AssignStmt [var "x"] ":=" [BinaryExpr (var "a") "+" (BasicLit "INT" "1")];
   AssignStmt [var "b"] "=" [var "x"]].
Definition f (doc : option string) : Ast :=
  FuncDecl doc None "f" f_params None f_body "0".

(** [// next adds one.]
    [func next(a int) int { x := a + 1; return x }]. *)
Definition next : Ast :=
  FuncDecl (Some "// next adds one.") None "next" [Field ["a"] (free "int")]
           (Some [Field [] (free "int")])
           [AssignStmt [var "x"] ":=" [BinaryExpr (var "a") "+" (BasicLit "INT" "1")];
            ReturnStmt [var "x"]] "0".

(** [func set(a int, b int) { b = 1 }]. *)
Definition set_body : list Node := [AssignStmt [var "b"] "=" [BasicLit "INT" "1"]].
Definition set : Ast :=
  FuncDecl (Some "// set stores one.") None "set" f_params None set_body "0".

(** [func count(i int, other bool) { if other {}; i++ }]. *)
Definition count_body : list Node :=
  [IfStmt (var "other") []; IncDecStmt (var "i") "++"].
Definition count (doc : option string) : Ast :=
  FuncDecl doc None "count"
           [Field ["i"] (free "int"); Field ["other"] (free "bool")] None count_body "0".

(** [func nested(c bool, j int) { if c { j++ } }]. *)
Definition nested : Ast :=
  FuncDecl (Some "// nested counts under a condition.") None "nested"
           [Field ["c"] (free "bool"); Field ["j"] (free "int")] None
           [IfStmt (var "c") [IncDecStmt (var "j") "++"]] "0".

(** [func loadAccount(id string) string { v := stub.GetState(id); return v }]. *)
Definition loadAccount_body : list Node :=
  [AssignStmt [var "v"] ":="
              [CallExpr (SelectorExpr (free "stub") "GetState") [var "id"]];
   ReturnStmt [var "v"]].
Definition loadAccount : Node :=
  FuncDecl None None "loadAccount" [Field ["id"] (free "string")]
           (Some [Field [] (free "string")]) loadAccount_body.

(** [stub.PutState(account.Key, account.Bytes)]. *)
Definition putState : Node :=
  CallExpr (SelectorExpr (free "stub") "PutState")
           [SelectorExpr (var "account") "Key"; SelectorExpr (var "account") "Bytes"].

(** [func saveAccount(account Account) { stub.PutState(account.Key, account.Bytes) }]. *)
Definition saveAccount : Node :=
  FuncDecl None None "saveAccount" [Field ["account"] (free "Account")] None
           [ExprStmt putState].

(** [func saveAccount(account Account) error { return stub.PutState(account.Key, account.Bytes) }]. *)
Definition saveAccountReturning : Node :=
  FuncDecl None None "saveAccount" [Field ["account"] (free "Account")]
           (Some [Field [] (free "error")])
           [ReturnStmt [putState]].

(** [func g(p string) string { y := h(c, p); z := stub.GetState(y); return z }]
    [func h(a string, b string) string { w := g(a); return w }]. *)
Definition g : Node :=
  FuncDecl None None "g" [Field ["p"] (free "string")] (Some [Field [] (free "string")])
           [AssignStmt [var "y"] ":=" [CallExpr (Ident "h" (Some "func")) [free "c"; var "p"]];
            AssignStmt [var "z"] ":="
                       [CallExpr (SelectorExpr (free "stub") "GetState") [var "y"]];
            ReturnStmt [var "z"]].
Definition h : Node :=
  FuncDecl None None "h" [Field ["a"] (free "string"); Field ["b"] (free "string")]
           (Some [Field [] (free "string")])
           [AssignStmt [var "w"] ":=" [CallExpr (Ident "g" (Some "func")) [var "a"]];
            ReturnStmt [var "w"]].
Definition gh : Ast := Decls [g; h].

(** The maps of [gh] after an odd and after an even number of passes. *)
Definition oddGet : PositionMap := <["g" := [0%nat]]> (<["h" := [0%nat]]> ∅).
Definition oddPut : PositionMap := <["g" := []]> (<["h" := [0%nat]]> ∅).
Definition evenGet : PositionMap := <["g" := []]> (<["h" := []]> ∅).
Definition evenPut : PositionMap := <["g" := []]> (<["h" := []]> ∅).

(** The arguments of a call [k(a, a, a)], as label handles. *)
Definition threeLabels : list Ast :=
  Children (slice "[]ast.Expr" [var "a"; var "a"; var "a"] "Args").

End Programs.

(** The statement list of a function declaration that carries a doc comment
    or a receiver. *)
Definition bodyOf (decl : Ast) : option Ast :=
  body ← Children decl !! 3%nat; Children body !! 0%nat.

(** ** Node kinds, as the detector's dispatch tells them apart *)

Definition isLiteral (c : Ast) : Prop := Contains (Label c) "BasicLit" = true.

Definition isIdentifier (c : Ast) : Prop :=
  Contains (Label c) "BasicLit" = false ∧ Contains (Label c) "*ast.Ident" = true.

Definition isCall (c : Ast) : Prop :=
  Contains (Label c) "BasicLit" = false ∧ Contains (Label c) "*ast.Ident" = false ∧
  Contains (Label c) "CallExpr" = true.

(** A reassignment: an [AssignStmt] whose token is not [:=]. *)
Definition isReassignment (s : Ast) : Prop :=
  Contains (Label s) "IfStmt" = false ∧ Contains (Label s) "IncDecStmt" = false ∧
  Contains (Label s) "AssignStmt" = true ∧ attr s "Tok" ≠ ":=".

Definition isIncDec (s : Ast) : Prop :=
  Contains (Label s) "IfStmt" = false ∧ Contains (Label s) "IncDecStmt" = true.

(** Structurally equal to a formal parameter or to a declared label. *)
Definition locallyResolved (functionArguments declared : list Ast) (n : Ast) : Prop :=
  ∃ l, l ∈ functionArguments ++ declared ∧ astNodeEqual n l = true.

(** [s] was appended to the candidates by the step from [st] to [st']. *)
Definition marked (st st' : Scan) (s : Ast) : Prop := pos st' = pos st ++ [s].

(** No two entries at different places are equal to each other. *)
Definition deduplicated (labels : list Ast) : Prop :=
  ∀ i j x y, i ≠ j → labels !! i = Some x → labels !! j = Some y →
             ¬ (astNodeEqual x y = true ∧ astNodeEqual y x = true).

(** ** The specification's reading of the detector

    The two definitions of this module follow the words of the
    specification, not the code; they are what the code is compared with. *)
Module Claimed.

Definition resolved (functionArguments declared : list Ast) (n : Ast) : bool :=
  memberOf n functionArguments || memberOf n declared.

(** "a literal disqualifies; an identifier/field-access disqualifies unless
    it is one of the function's own parameters or already declared; a call
    expression disqualifies unless every one of its argument nodes is a
    parameter or declared label". *)
Definition childPasses (functionArguments declared : list Ast) (c : Ast) : bool :=
  if Contains (Label c) "BasicLit" then false
  else if Contains (Label c) "*ast.Ident" || Contains (Label c) "*ast.SelectorExpr" then
    resolved functionArguments declared c
  else if Contains (Label c) "CallExpr" then
    match Children c !! 1%nat with
    | Some args => forallb (resolved functionArguments declared) (Children args)
    | None => false
    end
  else true.

(** "candidate iff (a) no left-hand target structurally matches an entry
    of condLabels, and (b) every top-level child of the right-hand side
    passes". *)
Definition reassignmentIsCandidate (functionArguments : list Ast) (st : Scan) (s : Ast) : bool :=
  match Children s with
  | lhs :: rhs :: _ =>
    negb (existsb (λ t, memberOf t (labelsInCondition st)) (Children lhs)) &&
    forallb (childPasses functionArguments (labelsInLeftHandedSide st)) (Children rhs)
  | _ => false
  end.

(** Every statement-sequence scope of a tree, outermost first. *)
Fixpoint statementLists (ast : Ast) : list Ast :=
  (if Contains (Label ast) "List : []ast.Stmt" then [ast] else []) ++
  flat_map statementLists (Children ast).

(** "recursively per nested statement-sequence scope — each if/loop/switch
    body is an independent scope processed with the same rules". *)
Definition detect (ast : Ast) (functionArguments : list Ast) : option (list Ast) :=
  found ← mapM (λ l, pos <$> scanStatements functionArguments (mkScan [] [] []) (Children l))
               (statementLists ast);
  Some (concat found).

End Claimed.

(** ** Notions for the further properties *)

(** No entry is equal to a later one. *)
Definition pairwiseDistinct (labels : list Ast) : Prop :=
  ∀ i j x y, (i < j)%nat → labels !! i = Some x → labels !! j = Some y →
             astNodeEqual x y = false.

(** The loop of [findLabelsInHalfStatements], named. *)
Fixpoint findLabelsEach (cs : list Ast) : option (list Ast) :=
  match cs with
  | [] => Some []
  | c :: cs' =>
    here ← (if Contains (Label c) "CallExpr" then
              match Children c with
              | _ :: args :: _ => findLabelsInHalfStatements args
              | _ => None
              end
            else if isBasicLabel c then Some [c]
            else findLabelsInHalfStatements c);
    rest ← findLabelsEach cs';
    Some (here ++ rest)
  end.

(** No node below [ast] is labelled as a call expression. *)
Fixpoint callFree (ast : Ast) : bool :=
  forallb (λ c, negb (Contains (Label c) "CallExpr") && callFree c) (Children ast).

Definition trackable (labels : list Ast) : Prop :=
  Forall (λ l, isBasicLabel l = true) labels.

(** The loop of the second branch of [findExchangeableSentences], named. *)
Definition findEach (functionArguments : list Ast) : list Ast → option (list Ast) :=
  fix loop (cs : list Ast) : option (list Ast) :=
    match cs with
    | [] => Some []
    | c :: cs' =>
      here ← findExchangeableSentences c functionArguments;
      rest ← loop cs';
      Some (here ++ rest)
    end.

(** The statements the detector can report. *)
Definition reportable (s : Ast) : Prop := isIncDec s ∨ isReassignment s.

(** No node of the tree is labelled as a function declaration. *)
Fixpoint declarationFree (ast : Ast) : bool :=
  negb (Contains (Label ast) "FuncDecl") && forallb declarationFree (Children ast).

(** A label that the reduction loop replaces by its first child. *)
Definition isSelectorOrIndex (e : Ast) : bool :=
  Contains (Label e) "SelectorExpr" || Contains (Label e) "IndexExpr".

(** The keys of [M] are keys of [M']. *)
Definition keysKept (M M' : PositionMap) : Prop :=
  ∀ k, is_Some (M !! k) → is_Some (M' !! k).

(** One of the three words on which [isBasicLabel] turns a label down. *)
Definition holdsExcludedWord (s : string) : Prop :=
  Contains s "Fun" = true ∨ Contains s "Key" = true ∨ Contains s "Type" = true.

(** A method declaration: a [FuncDecl] with a receiver; the parser does not
    resolve the name of a method. *)
Definition MethodDecl (recv : list Node) (name : string)
    (params : list Node) (results : option (list Node)) (body : list Node) : Node :=
  λ prefix, mkAst (LabelStruct prefix "*ast.FuncDecl" [("Name", name)]) 0 0 ∅
                  [FieldList recv "Recv"; Ident name None "Name";
                   FuncType params results "Type"; BlockStmt body "Body"].

Module Methods.

(** [func (a A) Get(id string) string { v := stub.GetState(id); return v }]
    [func (b B) Get(n int, id string) string { v := stub.GetState(id); return v }]. *)
Definition getA : Node :=
  MethodDecl [Field ["a"] (free "A")] "Get" [Field ["id"] (free "string")]
             (Some [Field [] (free "string")]) Programs.loadAccount_body.
Definition getB : Node :=
  MethodDecl [Field ["b"] (free "B")] "Get"
             [Field ["n"] (free "int"); Field ["id"] (free "string")]
             (Some [Field [] (free "string")]) Programs.loadAccount_body.

End Methods.

(** No non-empty suffix of [sub] is a prefix of [s]: an occurrence of [sub]
    cannot end inside [s] when it starts before it. *)
Fixpoint noSuffixStarts (sub s : string) : bool :=
  match sub with
  | EmptyString => true
  | String _ sub' => negb (String.prefix sub s) && noSuffixStarts sub' s
  end.

(** * Properties *)

(** Induction over the tree, with the hypothesis on every child. *)
Lemma Ast_ind' (P : Ast → Prop) :
  (∀ l p e at_ cs, Forall P cs → P (mkAst l p e at_ cs)) → ∀ a, P a.
Proof.
  intros step.
  fix IH 1. intros [l p e at_ cs]. apply step.
  induction cs as [|c cs IHcs]; constructor; [apply IH | exact IHcs].
Qed.

Lemma astNodeEqual_unfold ast1 ast2 :
  astNodeEqual ast1 ast2 =
  if nameBearing ast1 && nameBearing ast2 then
    String.eqb (attr ast1 "Name") (attr ast2 "Name")
  else if Nat.eqb (length (Children ast1)) (length (Children ast2)) then
    childrenEqual (Children ast1) (Children ast2)
  else false.
Proof.
  destruct ast1 as [l1 p1 e1 a1 c1]. reflexivity.
Qed.

Lemma childrenEqual_Forall2 l1 l2 :
  length l1 = length l2 →
  childrenEqual l1 l2 = true ↔ Forall2 (λ x y, astNodeEqual x y = true) l1 l2.
Proof.
  revert l2. induction l1 as [|x l1 IH]; intros [|y l2] Hlen; cbn in *; try discriminate.
  - split; [constructor | reflexivity].
  - injection Hlen as Hlen. destruct (astNodeEqual x y) eqn:Hxy.
    + rewrite (IH _ Hlen). split; [by constructor | by inversion 1].
    + split; [discriminate | inversion 1; congruence].
Qed.

Lemma astNodeEqual_refl a : astNodeEqual a a = true.
Proof.
  induction a as [l p e at_ cs IH] using Ast_ind'.
  rewrite astNodeEqual_unfold. destruct (_ && _); [apply String.eqb_refl|].
  rewrite Nat.eqb_refl. cbn [Children].
  induction IH as [|c cs Hc _ IHcs]; cbn; [reflexivity|]. by rewrite Hc.
Qed.

(** The two branches of [astNodeEqual], by the test on the labels. *)
Lemma astNodeEqual_cases (ast1 ast2 : Ast) :
  astNodeEqual ast1 ast2 = true ↔
  (nameBearing ast1 && nameBearing ast2 = true ∧ attr ast1 "Name" = attr ast2 "Name") ∨
  (nameBearing ast1 && nameBearing ast2 = false ∧
   length (Children ast1) = length (Children ast2) ∧
   Forall2 (λ x y, astNodeEqual x y = true) (Children ast1) (Children ast2)).
Proof.
  rewrite astNodeEqual_unfold.
  destruct (nameBearing ast1 && nameBearing ast2) eqn:Hn.
  - rewrite String.eqb_eq. split; [by left | intros [[_ ?]|[? _]]; [done | discriminate]].
  - destruct (Nat.eqb _ _) eqn:Hlen.
    + apply Nat.eqb_eq in Hlen. rewrite (childrenEqual_Forall2 _ _ Hlen).
      split; [by right | intros [[? _]|(_ & _ & ?)]; [discriminate | done]].
    + apply Nat.eqb_neq in Hlen.
      split; [discriminate | intros [[? _]|(_ & ? & _)]; [discriminate | done]].
Qed.

(** ** Deduplication *)

Import Programs.

Lemma removeFirstEqual_length x labels :
  (length (fst (removeFirstEqual x labels)) ≤ length labels)%nat.
Proof.
  induction labels as [|e rest IH]; cbn; [lia|].
  destruct (astNodeEqual x e); cbn; [lia|].
  destruct (removeFirstEqual x rest); cbn in *. lia.
Qed.

(** The fuel of [trimList] is enough: more changes nothing. *)
Lemma trimList_from_enough fuel : ∀ labels,
  (length labels ≤ fuel)%nat → trimList_from fuel labels = trimList labels.
Proof.
  unfold trimList. induction fuel as [fuel IH] using lt_wf_ind. intros labels Hlen.
  destruct labels as [|x rest]; [by destruct fuel|].
  destruct fuel as [|fuel]; cbn in Hlen; [lia|]. cbn [trimList_from length].
  pose proof (removeFirstEqual_length x rest) as Hr.
  rewrite (IH fuel) by lia. rewrite (IH (length rest)) by lia. reflexivity.
Qed.

(** [trimList] by its loops: the first element stays, the first later element
    equal to it goes, and the rest is trimmed the same way. *)
Lemma trimList_cons x rest :
  trimList (x :: rest) = x :: trimList (fst (removeFirstEqual x rest)).
Proof.
  unfold trimList at 1. cbn [length trimList_from].
  by rewrite trimList_from_enough by apply removeFirstEqual_length.
Qed.

(** A field access does not bear a name in its label: two of them are
    compared child by child, the object and then the selected name. *)
Lemma selectors_compare_by_children :
  nameBearing (SelectorExpr (var "account") "Key" "0") = false ∧
  astNodeEqual (SelectorExpr (var "account") "Key" "0")
               (SelectorExpr (var "account") "Key" "1") = true ∧
  astNodeEqual (SelectorExpr (var "account") "Key" "0")
               (SelectorExpr (var "account") "Bytes" "1") = false.
Proof. repeat split; vm_compute; reflexivity. Qed.

(** C4.  Three mutually equal labels: [trimList] removes the second one
    only, because the inner loop ends at the element it removes; the first
    and the third stay, equal to each other, so the trimmed list is not
    deduplicated. *)
Theorem C4_trimList_leaves_equal_pair :
  trimList threeLabels = [var "a" "0"; var "a" "2"] ∧
  astNodeEqual (var "a" "0") (var "a" "2") = true ∧
  ¬ deduplicated (trimList threeLabels).
Proof.
  assert (Ht : trimList threeLabels = [var "a" "0"; var "a" "2"]) by (vm_compute; reflexivity).
  assert (He : astNodeEqual (var "a" "0") (var "a" "2") = true) by (vm_compute; reflexivity).
  assert (He' : astNodeEqual (var "a" "2") (var "a" "0") = true) by (vm_compute; reflexivity).
  split; [exact Ht | split; [exact He |]].
  rewrite Ht. intros Hd.
  apply (Hd 0%nat 1%nat (var "a" "0") (var "a" "2")); [lia | reflexivity | reflexivity |].
  by split.
Qed.

(** ** The detector on one statement *)

Lemma memberOf_elem x labels :
  memberOf x labels = true ↔ ∃ l, l ∈ labels ∧ astNodeEqual x l = true.
Proof.
  unfold memberOf. rewrite existsb_exists.
  split; intros (l & Hl & He); exists l; (split; [|exact He]).
  - by apply list_elem_of_In.
  - by apply list_elem_of_In.
Qed.

Lemma locallyResolved_memberOf functionArguments declared n :
  locallyResolved functionArguments declared n ↔
  memberOf n functionArguments || memberOf n declared = true.
Proof.
  unfold locallyResolved. rewrite orb_true_iff, !memberOf_elem. split.
  - intros (l & Hl & He). apply elem_of_app in Hl as [Hl|Hl]; [left | right]; by exists l.
  - intros [(l & Hl & He)|(l & Hl & He)]; exists l; (split; [apply elem_of_app | done]);
      [by left | by right].
Qed.

(** What [checkLabelsInAssignStatementRightHandedSide] answers on a
    right-hand side with one child: [false] is the answer that lets the
    statement through. *)
Lemma checkRightHandedSide_single functionArguments declared rhs c r :
  Children rhs = [c] →
  (isCall c → ∃ args, Children c !! 1%nat = Some args ∧ (length (Children args) ≤ 1)%nat) →
  checkLabelsInAssignStatementRightHandedSide rhs functionArguments declared = Some r →
  r = false ↔
  isLiteral c ∨
  (isIdentifier c ∧ locallyResolved functionArguments declared c) ∨
  (isCall c ∧ ∃ args z, Children c !! 1%nat = Some args ∧ Children args = [z] ∧
                        locallyResolved functionArguments declared z).
Proof.
  unfold checkLabelsInAssignStatementRightHandedSide, isLiteral, isIdentifier, isCall.
  intros -> Hcall. cbn [checkRightHandedSide_from].
  setoid_rewrite locallyResolved_memberOf.
  destruct (Contains (Label c) "BasicLit") eqn:Hlit.
  { intros [= <-]. split; [by left | done]. }
  destruct (Contains (Label c) "*ast.Ident") eqn:Hid.
  { destruct (memberOf c functionArguments) eqn:Ha; cbn.
    - intros [= <-]. split; [|done]. intros _. right. left. done.
    - destruct (memberOf c declared) eqn:Hd; intros [= <-].
      + split; [|done]. intros _. right. left. done.
      + split; [done|]. intros [?|[[_ ?]|[[_ [? _]] _]]]; done. }
  destruct (Contains (Label c) "CallExpr") eqn:Hc.
  2:{ intros [= <-]. split; [done|]. intros [?|[[[_ ?] _]|[[_ [_ ?]] _]]]; done. }
  destruct Hcall as (args & Hargs & Hlen); [done|].
  rewrite Hargs. cbn.
  destruct (Children args) as [|z [|z' zs]] eqn:Hzs; cbn in Hlen; [| |lia].
  - intros [= <-]. split; [done|].
    intros [?|[[[_ ?] _]|[_ (a & z & Ha & Hz & _)]]]; [done|done|].
    injection Ha as <-. rewrite Hzs in Hz. done.
  - destruct (memberOf z functionArguments) eqn:Ha; cbn.
    + intros [= <-]. split; [|done]. intros _. right. right.
      split; [done|]. exists args, z. by rewrite Ha.
    + destruct (memberOf z declared) eqn:Hd; intros [= <-].
      * split; [|done]. intros _. right. right.
        split; [done|]. exists args, z. by rewrite Ha, Hd.
      * split; [done|].
        intros [?|[[[_ ?] _]|[_ (a & z0 & Ha0 & Hz0 & Hr)]]]; [done|done|].
        injection Ha0 as <-. rewrite Hzs in Hz0.
        injection Hz0 as <-. rewrite Ha, Hd in Hr. done.
Qed.

Lemma checkLeftHandedSide_spec lhs labels :
  checkLabelsInAssignStatementLeftHandedSide lhs labels = false ↔
  ∀ t, t ∈ Children lhs → ¬ ∃ l, l ∈ labels ∧ astNodeEqual t l = true.
Proof.
  unfold checkLabelsInAssignStatementLeftHandedSide.
  rewrite <- not_true_iff_false, existsb_exists. split.
  - intros Hn t Ht Hm. apply Hn. exists t. split; [by apply list_elem_of_In|].
    by apply memberOf_elem.
  - intros Hn (t & Ht & Hm). apply (Hn t); [by apply list_elem_of_In|].
    by apply memberOf_elem.
Qed.

Lemma app_one_neq {A} (l : list A) (x : A) : l ≠ l ++ [x].
Proof. intros H. apply (f_equal length) in H. rewrite length_app in H. cbn in H. lia. Qed.

(** C1, amended.  A reassignment at the top level of a statement list whose
    right-hand side has one top-level child (a call, if it is one, with at
    most one argument) is marked a candidate if and only if (a) no left-hand
    child structurally matches a label collected from the earlier [if]
    statements, and (b) that child is a literal, or an identifier that
    structurally equals a formal parameter or a label declared earlier with
    [:=], or a call expression whose argument is such a parameter or
    declared label. *)
Theorem C1_reassignment_candidate
    (functionArguments : list Ast) (st st' : Scan) (s lhs rhs c : Ast) :
  isReassignment s →
  Children s !! 0%nat = Some lhs →
  Children s !! 1%nat = Some rhs →
  Children rhs = [c] →
  (isCall c → ∃ args, Children c !! 1%nat = Some args ∧ (length (Children args) ≤ 1)%nat) →
  scanStatement functionArguments st s = Some st' →
  marked st st' s ↔
  (∀ t, t ∈ Children lhs → ¬ ∃ l, l ∈ labelsInCondition st ∧ astNodeEqual t l = true) ∧
  (isLiteral c ∨
   (isIdentifier c ∧ locallyResolved functionArguments (labelsInLeftHandedSide st) c) ∨
   (isCall c ∧ ∃ args z, Children c !! 1%nat = Some args ∧ Children args = [z] ∧
                         locallyResolved functionArguments (labelsInLeftHandedSide st) z)).
Proof.
  intros (Hif & Hinc & Has & Htok) Hlhs Hrhs Hc Hcall.
  unfold scanStatement, marked. rewrite Hif, Hinc, Has.
  apply String.eqb_neq in Htok. rewrite Htok, Hlhs. cbn [mbind option_bind].
  rewrite <- checkLeftHandedSide_spec.
  destruct (checkLabelsInAssignStatementLeftHandedSide lhs (labelsInCondition st)) eqn:Hl.
  { intros [= <-]. split; [intros H; by apply app_one_neq in H | intros [? _]; done]. }
  rewrite Hrhs. cbn [mbind option_bind].
  destruct (checkLabelsInAssignStatementRightHandedSide rhs functionArguments
              (labelsInLeftHandedSide st)) as [r|] eqn:Hr; [|discriminate].
  cbn [mbind option_bind].
  rewrite <- (checkRightHandedSide_single _ _ _ _ _ Hc Hcall Hr).
  destruct r; intros [= <-]; cbn [pos].
  - split; [intros H; by apply app_one_neq in H | intros [_ ?]; done].
  - done.
Qed.

(** The right-hand side [1] of [b = 1] is a literal: the detector marks the
    statement, the rule as worded does not. *)
Lemma C1_literal_counterexample :
  let s := AssignStmt [var "b"] "=" [BasicLit "INT" "1"] "0" in
  let arguments := [var "a" "0"; var "b" "0"] in
  let st := mkScan [] [] [] in
  declaredArguments set = Some arguments ∧
  findExchangeableSentences set arguments = Some [s] ∧
  scanStatement arguments st s = Some (mkScan [] [] [s]) ∧
  marked st (mkScan [] [] [s]) s ∧
  Claimed.reassignmentIsCandidate arguments st s = false.
Proof. repeat split; vm_compute; reflexivity. Qed.

(** The theorem at [b = x] after [x := a + 1] in [f]. *)
Lemma C1_reassignment_candidate_witness :
  let s := AssignStmt [var "b"] "=" [var "x"] "1" in
  let lhs := slice "[]ast.Expr" [var "b"] "Lhs" in
  let rhs := slice "[]ast.Expr" [var "x"] "Rhs" in
  let arguments := [var "a" "0"; var "b" "0"] in
  let st := mkScan [] [var "x" "0"] [] in
  let st' := mkScan [] [var "x" "0"] [s] in
  marked st st' s ↔
  (∀ t, t ∈ Children lhs → ¬ ∃ l, l ∈ labelsInCondition st ∧ astNodeEqual t l = true) ∧
  (isLiteral (var "x" "0") ∨
   (isIdentifier (var "x" "0") ∧
    locallyResolved arguments (labelsInLeftHandedSide st) (var "x" "0")) ∨
   (isCall (var "x" "0") ∧
    ∃ args z, Children (var "x" "0") !! 1%nat = Some args ∧ Children args = [z] ∧
              locallyResolved arguments (labelsInLeftHandedSide st) z)).
Proof.
  intros s lhs rhs arguments st st'.
  apply (C1_reassignment_candidate arguments st st' s lhs rhs (var "x" "0")).
  - repeat split; try (vm_compute; reflexivity). vm_compute. discriminate.
  - vm_compute; reflexivity.
  - vm_compute; reflexivity.
  - vm_compute; reflexivity.
  - intros (_ & H & _). vm_compute in H. discriminate.
  - vm_compute; reflexivity.
Defined.

(** The rule for an increment or decrement statement: it is marked exactly
    when its operand equals no label collected from the earlier [if]
    statements of the list. *)
Lemma incdec_candidate (functionArguments : list Ast) (st st' : Scan) (s x : Ast) :
  isIncDec s →
  Children s !! 0%nat = Some x →
  scanStatement functionArguments st s = Some st' →
  marked st st' s ↔ ¬ ∃ l, l ∈ labelsInCondition st ∧ astNodeEqual x l = true.
Proof.
  intros [Hif Hinc] Hx. unfold scanStatement, marked. rewrite Hif, Hinc, Hx.
  rewrite <- memberOf_elem.
  assert (Hfound : match labelsInCondition st with
                   | [] => Some false
                   | _ => x0 ← Some x; Some (memberOf x0 (labelsInCondition st))
                   end = Some (memberOf x (labelsInCondition st)))
    by (by destruct (labelsInCondition st)).
  rewrite Hfound. cbn [mbind option_bind].
  destruct (memberOf x (labelsInCondition st)); intros [= <-]; cbn [pos].
  - split; [intros H; by apply app_one_neq in H | intros H; by destruct H].
  - split; [intros _; discriminate | done].
Qed.

(** C8.  In [func count(i int, other bool) { if other {}; i++ }] the
    detector reports [i++]: its operand [i] is not among the labels of the
    [if].  The expansion then reads the second child of the reported
    statement, and an [IncDecStmt] node has one child only: [expendKernels],
    and with it phase 1, panics instead of producing the chain [i++]. *)
Theorem C8_incdec_expansion_panics :
  let s := IncDecStmt (var "i") "++" "1" in
  let arguments := [var "i" "0"; var "other" "0"] in
  let body := slice "[]ast.Stmt" count_body "List" in
  ∀ doc : string,
    declaredArguments (count (Some doc)) = Some arguments ∧
    bodyOf (count (Some doc)) = Some body ∧
    findExchangeableSentences (count (Some doc)) arguments = Some [s] ∧
    length (Children s) = 1%nat ∧
    expendKernels body [s] = None ∧
    analyzeFunctionDeclaration (count (Some doc)) = None ∧
    analyzeFunctionDeclaration (count None) = None.
Proof. intros s arguments body doc. repeat split; vm_compute; reflexivity. Qed.

(** ** Nested statement lists *)

Lemma scanStatement_pos functionArguments st s st' :
  scanStatement functionArguments st s = Some st' →
  pos st' = pos st ∨ pos st' = pos st ++ [s].
Proof.
  unfold scanStatement. intros H.
  repeat match type of H with
         | (if ?b then _ else _) = _ => destruct b
         | mbind _ ?o = _ => destruct o; cbn [mbind option_bind] in H; [|discriminate]
         end;
    injection H as <-; cbn [pos]; auto.
Qed.

Lemma scanStatements_pos functionArguments stmts : ∀ st st',
  scanStatements functionArguments st stmts = Some st' →
  ∃ found, pos st' = pos st ++ found ∧ sublist found stmts.
Proof.
  induction stmts as [|s stmts IH]; intros st st'; cbn [scanStatements].
  - intros [= <-]. exists []. by rewrite app_nil_r.
  - destruct (scanStatement functionArguments st s) as [st1|] eqn:Hs; [|discriminate].
    cbn [mbind option_bind]. intros H. apply IH in H as (found & Hp & Hsub).
    apply scanStatement_pos in Hs as [Hs|Hs]; rewrite Hs in Hp.
    + exists found. split; [done|]. by apply sublist_cons.
    + exists (s :: found). rewrite <- app_assoc in Hp. split; [done|]. by apply sublist_skip.
Qed.

(** C5, amended.  On a statement list the detector looks at the list's own
    statements only: what it reports is a subsequence of the children of the
    list, so no statement of the body of an [if], a loop or a switch is ever
    scanned or reported. *)
Theorem C5_only_direct_statements
    (ast : Ast) (functionArguments found : list Ast) :
  Contains (Label ast) "List : []ast.Stmt" = true →
  findExchangeableSentences ast functionArguments = Some found →
  sublist found (Children ast).
Proof.
  intros Hl. destruct ast as [l p e at_ cs]. cbn [findExchangeableSentences].
  rewrite Hl. cbn [Children].
  destruct (scanStatements functionArguments (mkScan [] [] []) cs) as [st|] eqn:Hs;
    [|discriminate].
  cbn [mbind option_bind]. intros [= <-].
  apply scanStatements_pos in Hs as (found & -> & Hsub). exact Hsub.
Qed.

(** The theorem at the body of [func f(a int, b int) { x := a + 1; b = x }]. *)
Lemma C5_only_direct_statements_witness :
  sublist [AssignStmt [var "b"] "=" [var "x"] "1"]
          (Children (slice "[]ast.Stmt" f_body "List")).
Proof.
  apply (C5_only_direct_statements (slice "[]ast.Stmt" f_body "List")
                                   [var "a" "0"; var "b" "0"]).
  - vm_compute; reflexivity.
  - vm_compute; reflexivity.
Defined.

(** In [func nested(c bool, j int) { if c { j++ } }] the body of the [if] is
    a statement list of its own in which [j++] is a candidate by the rules
    ([j] is in no condition of that list), yet the detector reports nothing
    for the function. *)
Lemma C5_nested_counterexample :
  let arguments := [var "c" "0"; var "j" "0"] in
  let inner := slice "[]ast.Stmt" [IncDecStmt (var "j") "++"] "List" in
  declaredArguments nested = Some arguments ∧
  inner ∈ Claimed.statementLists nested ∧
  findExchangeableSentences inner arguments = Some [IncDecStmt (var "j") "++" "0"] ∧
  Claimed.detect nested arguments = Some [IncDecStmt (var "j") "++" "0"] ∧
  findExchangeableSentences nested arguments = Some [] ∧
  analyzeFunctionDeclaration nested = Some [].
Proof.
  repeat split; try (vm_compute; reflexivity).
  vm_compute. apply list_elem_of_further, list_elem_of_here.
Qed.

(** ** Expansion of a candidate *)

(** In [func f(a int, b int) { x := a + 1; b = x }] the detector reports
    [b = x], and the expansion of [b = x] over the body is [b = x],
    [x := a + 1], nearest first: the walk starts from the label [x] of the
    right-hand side, finds it on the left of [x := a + 1], removes it,
    collects that statement and goes on with the label [a] of its right-hand
    side to the start of the list.  With a doc comment on the declaration
    phase 1 returns that chain. *)
Lemma chain_of_f_with_doc_comment :
  let s0 := AssignStmt [var "x"] ":=" [BinaryExpr (var "a") "+" (BasicLit "INT" "1")] "0" in
  let s1 := AssignStmt [var "b"] "=" [var "x"] "1" in
  let arguments := [var "a" "0"; var "b" "0"] in
  let body := slice "[]ast.Stmt" f_body "List" in
  (∀ doc : option string, findExchangeableSentences (f doc) arguments = Some [s1]) ∧
  findLabelsInHalfStatements (slice "[]ast.Expr" [var "x"] "Rhs") = Some [var "x" "0"] ∧
  resolveTargets [var "x" "0"] [var "x" "0"] false = ([], true) ∧
  findLabelsInHalfStatements
    (slice "[]ast.Expr" [BinaryExpr (var "a") "+" (BasicLit "INT" "1")] "Rhs")
    = Some [var "a" "X"] ∧
  expendWalk (Children body) 1 [var "x" "0"] [s1] = Some [s1; s0] ∧
  expendKernels body [s1] = Some [s1; s0] ∧
  ∀ doc : string,
    declaredArguments (f (Some doc)) = Some arguments ∧
    bodyOf (f (Some doc)) = Some body ∧
    analyzeFunctionDeclaration (f (Some doc)) = Some [[s1; s0]].
Proof.
  intros s0 s1 arguments body. split; [|repeat split; vm_compute; reflexivity].
  intros [doc|]; vm_compute; reflexivity.
Qed.

(** C9.  [func f(a int, b int) { x := a + 1; b = x }], as the text stands,
    without doc comment or receiver: the declaration node has the three
    children name, type and body.  Phase 1 reads the parameter list from the
    third child and the body from the fourth: the nodes it takes for
    parameters come from the first statement, the detector still reports
    [b = x], and reading the fourth child panics.  No chain is produced. *)
Theorem C9_phase1_panics_on_plain_declaration :
  let s1 := AssignStmt [var "b"] "=" [var "x"] "1" in
  map Label (Children (f None)) =
    ["Name : *ast.Ident (Name: f)"; "Type : *ast.FuncType"; "Body : *ast.BlockStmt"] ∧
  declaredArguments (f None) = Some [Object "var" "x" "Obj"; var "a" "X"] ∧
  findExchangeableSentences (f None) [Object "var" "x" "Obj"; var "a" "X"] = Some [s1] ∧
  Children (f None) !! 3%nat = None ∧
  analyzeFunctionDeclaration (f None) = None ∧
  declaredArgumentsFromEnd (f None) = Some [var "a" "0"; var "b" "0"].
Proof. repeat split; vm_compute; reflexivity. Qed.

(** Without a doc comment (and without a receiver) the declaration has three
    children, and phase 1, which reads the fourth, panics once a candidate is
    found. *)
Lemma phase1_needs_four_children :
  length (Children (f None)) = 3%nat ∧ analyzeFunctionDeclaration (f None) = None.
Proof. split; vm_compute; reflexivity. Qed.

(** ** Functions without candidates *)

Lemma analyzeFunctionDeclaration_unfold ast :
  analyzeFunctionDeclaration ast =
  if Contains (Label ast) "FuncDecl" then
    arguments ← declaredArguments ast;
    kernels ← findExchangeableSentences ast arguments;
    if Nat.eqb (length kernels) 0 then Some []
    else
      body ← Children ast !! 3%nat;
      stmts ← Children body !! 0%nat;
      chain ← expendKernels stmts kernels;
      Some [chain]
  else analyzeEach (Children ast).
Proof. destruct ast. reflexivity. Qed.

Lemma analyzeEach_app before after :
  analyzeEach (before ++ after) =
  r1 ← analyzeEach before; r2 ← analyzeEach after; Some (r1 ++ r2).
Proof.
  induction before as [|c cs IH]; cbn [analyzeEach app].
  - cbn. by destruct (analyzeEach after).
  - destruct (analyzeFunctionDeclaration c) as [here|]; cbn [mbind option_bind]; [|done].
    rewrite IH. destruct (analyzeEach cs) as [r1|]; cbn [mbind option_bind]; [|done].
    destruct (analyzeEach after) as [r2|]; cbn [mbind option_bind]; [|done].
    by rewrite app_assoc.
Qed.

(** A function with candidates contributes exactly one entry. *)
Lemma kernels_give_one_entry ast arguments kernels entries :
  Contains (Label ast) "FuncDecl" = true →
  declaredArguments ast = Some arguments →
  findExchangeableSentences ast arguments = Some kernels →
  kernels ≠ [] →
  analyzeFunctionDeclaration ast = Some entries →
  ∃ stmts chain, bodyOf ast = Some stmts ∧ expendKernels stmts kernels = Some chain ∧
                 entries = [chain].
Proof.
  intros Hf Ha Hk Hne. rewrite analyzeFunctionDeclaration_unfold, Hf, Ha.
  cbn [mbind option_bind]. rewrite Hk. cbn [mbind option_bind].
  destruct kernels as [|k ks]; [done|]. cbn [length Nat.eqb]. unfold bodyOf.
  destruct (Children ast !! 3%nat) as [body|]; cbn [mbind option_bind]; [|discriminate].
  destruct (Children body !! 0%nat) as [stmts|]; cbn [mbind option_bind]; [|discriminate].
  destruct (expendKernels stmts (k :: ks)) as [chain|] eqn:Hchain; cbn [mbind option_bind];
    [|discriminate].
  intros [= <-]. exists stmts, chain. by rewrite Hchain.
Qed.

(** C10.  A function declaration whose body yields no candidate contributes
    no entry to the result of phase 1: its own result is the empty list, and
    the result for a tree that holds it is the result for the tree without
    it. *)
Theorem C10_no_candidate_no_entry
    (l : string) (p e : Z) (at_ : gmap string string)
    (before after arguments : list Ast) (decl : Ast) :
  Contains l "FuncDecl" = false →
  Contains (Label decl) "FuncDecl" = true →
  declaredArguments decl = Some arguments →
  findExchangeableSentences decl arguments = Some [] →
  analyzeFunctionDeclaration decl = Some [] ∧
  analyzeFunctionDeclaration (mkAst l p e at_ (before ++ decl :: after)) =
  analyzeFunctionDeclaration (mkAst l p e at_ (before ++ after)).
Proof.
  intros Hl Hf Ha Hk.
  assert (Hd : analyzeFunctionDeclaration decl = Some []).
  { rewrite analyzeFunctionDeclaration_unfold, Hf, Ha. cbn [mbind option_bind].
    rewrite Hk. reflexivity. }
  split; [exact Hd|].
  rewrite !analyzeFunctionDeclaration_unfold. cbn [Label Children]. rewrite Hl.
  rewrite !analyzeEach_app. cbn [analyzeEach]. rewrite Hd. cbn [mbind option_bind].
  destruct (analyzeEach before) as [r1|]; cbn [mbind option_bind]; [|done].
  destruct (analyzeEach after) as [r2|]; cbn [mbind option_bind]; done.
Qed.

(** The theorem at a declaration list made of [next], which has no
    candidate, in front of [f]. *)
Lemma C10_no_candidate_no_entry_witness :
  analyzeFunctionDeclaration next = Some [] ∧
  analyzeFunctionDeclaration
    (mkAst "Decls : []ast.Decl(len = 2)" 0 0 ∅ ([] ++ next :: [f (Some "// f copies.")])) =
  analyzeFunctionDeclaration
    (mkAst "Decls : []ast.Decl(len = 2)" 0 0 ∅ ([] ++ [f (Some "// f copies.")])).
Proof.
  apply (C10_no_candidate_no_entry _ 0 0 ∅ [] [f (Some "// f copies.")] [var "a" "0"] next).
  - vm_compute; reflexivity.
  - vm_compute; reflexivity.
  - vm_compute; reflexivity.
  - vm_compute; reflexivity.
Defined.

(** ** Ledger positions of single functions *)

Lemma analyzeReadWriteAPI_from_S fuel ast G P :
  analyzeReadWriteAPI_from (S fuel) ast G P =
  match sweep ast G P with
  | None => Panicked
  | Some st =>
    if flag st then analyzeReadWriteAPI_from fuel ast (GetStateMap st) (PutStateMap st)
    else Returned (GetStateMap st, PutStateMap st)
  end.
Proof. reflexivity. Qed.

(** C7.  [func loadAccount(id string) string { v := stub.GetState(id);
    return v }]: whatever the map holds, a pass computes the GetState
    positions [0] for the body, the call's first argument [id] being formal
    parameter 0; phase 2 on the program returns that set for [loadAccount]. *)
Theorem C7_loadAccount_GetState :
  let body := slice "[]ast.Stmt" loadAccount_body "List" in
  declaredArgumentsFromEnd (loadAccount "0") = Some [var "id" "0"] ∧
  (∀ M : PositionMap,
     collectStateLabels (Children body) 2 M true [] = Some [var "id" "0"] ∧
     findGetOrPutStateList body M [var "id" "0"] true = Some [0%nat]) ∧
  ∀ fuel, analyzeReadWriteAPI (S (S fuel)) (Decls [loadAccount]) =
          Returned ({["loadAccount" := [0%nat]]}, {["loadAccount" := []]}).
Proof.
  intros body. split; [vm_compute; reflexivity|]. split.
  - intros M. split; vm_compute; reflexivity.
  - intros fuel. unfold analyzeReadWriteAPI.
    assert (H1 : sweep (Decls [loadAccount]) ∅ ∅ =
                 Some (mkSweep {["loadAccount" := [0%nat]]} {["loadAccount" := []]} true))
      by (vm_compute; reflexivity).
    assert (H2 : sweep (Decls [loadAccount]) {["loadAccount" := [0%nat]]}
                       {["loadAccount" := []]} =
                 Some (mkSweep {["loadAccount" := [0%nat]]} {["loadAccount" := []]} false))
      by (vm_compute; reflexivity).
    rewrite analyzeReadWriteAPI_from_S, H1. cbn [flag GetStateMap PutStateMap].
    rewrite analyzeReadWriteAPI_from_S, H2. reflexivity.
Qed.

(** C6.  [func saveAccount(account Account) { stub.PutState(account.Key,
    account.Bytes) }]: the call is found and position 0 is to be tracked, but
    the tracked node is looked up along the path of an assignment or return
    statement; on the expression statement that path ends in the selector
    name [PutState], which has no child, and the pass panics: phase 2 returns
    no PutState set for [saveAccount]. *)
Theorem C6_saveAccount_panics :
  let s := ExprStmt putState "0" in
  let body := slice "[]ast.Stmt" [ExprStmt putState] "List" in
  declaredArgumentsFromEnd (saveAccount "0") = Some [var "account" "0"] ∧
  (∀ M : PositionMap, findGetOrPutStateExpression s M false = Some [0%nat]) ∧
  (Children s !! 0%nat ≫= λ call, Children call !! 0%nat ≫= λ fn, Children fn !! 1%nat)
    = Some (free "PutState" "Sel") ∧
  Children (free "PutState" "Sel") = [] ∧
  trackedArgument s 0 = None ∧
  (∀ M : PositionMap, findGetOrPutStateList body M [var "account" "0"] false = None) ∧
  ∀ fuel, analyzeReadWriteAPI (S fuel) (Decls [saveAccount]) = Panicked.
Proof.
  intros s body.
  assert (H : sweep (Decls [saveAccount]) ∅ ∅ = None) by (vm_compute; reflexivity).
  split; [vm_compute; reflexivity|]. split; [intros M; vm_compute; reflexivity|].
  split; [vm_compute; reflexivity|]. split; [vm_compute; reflexivity|].
  split; [vm_compute; reflexivity|]. split; [intros M; vm_compute; reflexivity|].
  intros fuel. unfold analyzeReadWriteAPI. by rewrite analyzeReadWriteAPI_from_S, H.
Qed.

(** With the call in a return statement the path reaches the first argument
    [account.Key], which is replaced by [account], formal parameter 0. *)
Lemma saveAccount_returning_PutState :
  ∀ fuel, analyzeReadWriteAPI (S (S fuel)) (Decls [saveAccountReturning]) =
          Returned ({["saveAccount" := []]}, {["saveAccount" := [0%nat]]}).
Proof.
  intros fuel. unfold analyzeReadWriteAPI.
  assert (H1 : sweep (Decls [saveAccountReturning]) ∅ ∅ =
               Some (mkSweep {["saveAccount" := []]} {["saveAccount" := [0%nat]]} true))
    by (vm_compute; reflexivity).
  assert (H2 : sweep (Decls [saveAccountReturning]) {["saveAccount" := []]}
                     {["saveAccount" := [0%nat]]} =
               Some (mkSweep {["saveAccount" := []]} {["saveAccount" := [0%nat]]} false))
    by (vm_compute; reflexivity).
  rewrite analyzeReadWriteAPI_from_S, H1. cbn [flag GetStateMap PutStateMap].
  rewrite analyzeReadWriteAPI_from_S, H2. reflexivity.
Qed.

(** ** The passes of phase 2 *)

(** A pass that leaves the flag down has changed nothing. *)
Lemma sweepDeclaration_unchanged st decl st' :
  sweepDeclaration st decl = Some st' → flag st' = false → st' = st.
Proof.
  unfold sweepDeclaration.
  destruct (Contains (Label decl) "FuncDecl"); [|by intros [= <-]].
  destruct (declaredArgumentsFromEnd decl) as [arguments|]; cbn [mbind option_bind];
    [|discriminate].
  destruct (child decl (len decl - 3)) as [name|]; cbn [mbind option_bind]; [|discriminate].
  destruct (child decl (len decl - 1)) as [body|]; cbn [mbind option_bind]; [|discriminate].
  destruct (Children body !! 0%nat) as [stmts|]; cbn [mbind option_bind]; [|discriminate].
  destruct (findGetOrPutStateList stmts (GetStateMap st) arguments true) as [gets|];
    cbn [mbind option_bind]; [|discriminate].
  destruct (decide (GetStateMap st !! attr name "Name" = Some gets)) as [_|_].
  - destruct (findGetOrPutStateList stmts (GetStateMap st) arguments false) as [puts|];
      cbn [mbind option_bind]; [|discriminate].
    destruct (decide (PutStateMap st !! attr name "Name" = Some puts)) as [_|_];
      intros [= <-]; [done | discriminate].
  - destruct (findGetOrPutStateList stmts _ arguments false) as [puts|];
      cbn [mbind option_bind]; [|discriminate].
    destruct (decide (_ = Some puts)) as [_|_]; intros [= <-]; discriminate.
Qed.

Lemma sweepDeclarations_unchanged decls : ∀ st st',
  sweepDeclarations st decls = Some st' → flag st' = false → st' = st.
Proof.
  induction decls as [|d decls IH]; intros st st'; cbn [sweepDeclarations].
  - by intros [= <-].
  - destruct (sweepDeclaration st d) as [st1|] eqn:Hd; cbn [mbind option_bind];
      [|discriminate].
    intros H Hf. pose proof (IH _ _ H Hf) as ->.
    exact (sweepDeclaration_unchanged _ _ _ Hd Hf).
Qed.

(** When the loop returns, it returns maps that a pass leaves as they are. *)
Lemma returned_is_stable fuel ast : ∀ G P G' P',
  analyzeReadWriteAPI_from fuel ast G P = Returned (G', P') →
  sweep ast G' P' = Some (mkSweep G' P' false).
Proof.
  induction fuel as [|fuel IH]; intros G P G' P'; [discriminate|].
  rewrite analyzeReadWriteAPI_from_S.
  destruct (sweep ast G P) as [st|] eqn:Hs; [|discriminate].
  destruct (flag st) eqn:Hf; [apply IH|].
  intros [= <- <-]. unfold sweep in Hs.
  pose proof (sweepDeclarations_unchanged _ _ _ Hs Hf) as ->. exact Hs.
Qed.

Lemma gh_first : sweep gh ∅ ∅ = Some (mkSweep oddGet oddPut true).
Proof. vm_compute; reflexivity. Qed.

Lemma gh_odd : sweep gh oddGet oddPut = Some (mkSweep evenGet evenPut true).
Proof. vm_compute; reflexivity. Qed.

Lemma gh_even : sweep gh evenGet evenPut = Some (mkSweep oddGet oddPut true).
Proof. vm_compute; reflexivity. Qed.

Lemma gh_keeps_running fuel :
  analyzeReadWriteAPI_from fuel gh oddGet oddPut = StillRunning ∧
  analyzeReadWriteAPI_from fuel gh evenGet evenPut = StillRunning.
Proof.
  induction fuel as [|fuel [IHodd IHeven]]; [by split|].
  rewrite !analyzeReadWriteAPI_from_S, gh_odd, gh_even. cbn [flag GetStateMap PutStateMap].
  by split.
Qed.

(** C2.  The program
    [func g(p string) string { y := h(c, p); z := stub.GetState(y); return z }]
    [func h(a string, b string) string { w := g(a); return w }]:
    after the first pass the GetState set of [g] is [0]; after the second it
    is empty, because the statement [y := h(c, p)] is no longer resolved as
    an assignment once [h] has a position; the third pass gives the maps of
    the first again.  Every pass changes a set, and the loop never stops. *)
Theorem C2_sets_shrink_and_loop_runs_on :
  afterSweeps 1 gh = Some (mkSweep oddGet oddPut true) ∧
  afterSweeps 2 gh = Some (mkSweep evenGet evenPut true) ∧
  afterSweeps 3 gh = Some (mkSweep oddGet oddPut true) ∧
  oddGet !! "g" = Some [0%nat] ∧
  evenGet !! "g" = Some [] ∧
  ∀ fuel, analyzeReadWriteAPI fuel gh = StillRunning.
Proof.
  assert (H1 : afterSweeps 1 gh = Some (mkSweep oddGet oddPut true)).
  { cbn [afterSweeps mbind option_bind GetStateMap PutStateMap]. exact gh_first. }
  assert (H2 : afterSweeps 2 gh = Some (mkSweep evenGet evenPut true)).
  { change (afterSweeps 2 gh) with
      (st ← afterSweeps 1 gh; sweep gh (GetStateMap st) (PutStateMap st)).
    rewrite H1. exact gh_odd. }
  assert (H3 : afterSweeps 3 gh = Some (mkSweep oddGet oddPut true)).
  { change (afterSweeps 3 gh) with
      (st ← afterSweeps 2 gh; sweep gh (GetStateMap st) (PutStateMap st)).
    rewrite H2. exact gh_even. }
  split; [exact H1|]. split; [exact H2|]. split; [exact H3|].
  split; [vm_compute; reflexivity|]. split; [vm_compute; reflexivity|].
  intros [|fuel]; [reflexivity|]. unfold analyzeReadWriteAPI.
  rewrite analyzeReadWriteAPI_from_S, gh_first. cbn [flag GetStateMap PutStateMap].
  apply gh_keeps_running.
Qed.

(** * Further properties of the code *)

(** ** Structural equivalence *)

Lemma childrenEqual_sym l1 :
  Forall (λ x, ∀ y, astNodeEqual x y = astNodeEqual y x) l1 →
  ∀ l2, childrenEqual l1 l2 = childrenEqual l2 l1.
Proof.
  induction 1 as [|x l1 Hx _ IH]; intros [|y l2]; cbn; try reflexivity.
  rewrite Hx, IH. reflexivity.
Qed.

Lemma astNodeEqual_sym a : ∀ b, astNodeEqual a b = astNodeEqual b a.
Proof.
  induction a as [l p e at_ cs IH] using Ast_ind'. intros b.
  rewrite !astNodeEqual_unfold. rewrite (andb_comm (nameBearing b)).
  rewrite (String.eqb_sym (attr b "Name")), (Nat.eqb_sym (length (Children b))).
  cbn [Children]. by rewrite (childrenEqual_sym cs IH).
Qed.

(** [astNodeEqual] is reflexive and symmetric on all trees. *)
Theorem astNodeEqual_reflexive_symmetric (a b : Ast) :
  astNodeEqual a a = true ∧ astNodeEqual a b = astNodeEqual b a.
Proof. split; [apply astNodeEqual_refl | apply astNodeEqual_sym]. Qed.

(** [astNodeEqual] is not transitive: a childless node whose label bears no
    name equals every childless node, also two name-bearing ones of different
    names, which are not equal to each other. *)
Theorem astNodeEqual_not_transitive (x m y : Ast) :
  nameBearing x = true → nameBearing y = true → nameBearing m = false →
  Children x = [] → Children m = [] → Children y = [] →
  attr x "Name" ≠ attr y "Name" →
  astNodeEqual x m = true ∧ astNodeEqual m y = true ∧ astNodeEqual x y = false.
Proof.
  intros Hx Hy Hm Cx Cm Cy Hne. rewrite !astNodeEqual_unfold.
  rewrite Hx, Hy, Hm, Cx, Cm, Cy. cbn. split; [done|]. split; [done|].
  by apply String.eqb_neq.
Qed.

(** The theorem at the identifiers [x] and [y] and the literal [1]. *)
Lemma astNodeEqual_not_transitive_witness :
  astNodeEqual (free "x" "0") (BasicLit "INT" "1" "0") = true ∧
  astNodeEqual (BasicLit "INT" "1" "0") (free "y" "0") = true ∧
  astNodeEqual (free "x" "0") (free "y" "0") = false.
Proof.
  apply astNodeEqual_not_transitive; try (vm_compute; reflexivity).
  vm_compute. discriminate.
Defined.

(** ** [trimList] *)

Lemma removeFirstEqual_sublist x labels :
  fst (removeFirstEqual x labels) `sublist_of` labels.
Proof.
  induction labels as [|e rest IH]; cbn; [constructor|].
  destruct (astNodeEqual x e); cbn; [by apply sublist_cons|].
  destruct (removeFirstEqual x rest); cbn in *. by apply sublist_skip.
Qed.

Lemma removeFirstEqual_drops_one x labels :
  (length labels ≤ S (length (fst (removeFirstEqual x labels))))%nat.
Proof.
  induction labels as [|e rest IH]; cbn; [lia|].
  destruct (astNodeEqual x e); cbn; [lia|].
  destruct (removeFirstEqual x rest); cbn in *. lia.
Qed.

Lemma removeFirstEqual_none x labels :
  Forall (λ e, astNodeEqual x e = false) labels →
  removeFirstEqual x labels = (labels, false).
Proof.
  induction 1 as [|e rest He _ IH]; cbn; [reflexivity|]. by rewrite He, IH.
Qed.

(** [trimList] only removes: what it leaves is a subsequence of the list it
    was given, in the same order; and it removes at most as many entries as
    it keeps, one for each entry kept. *)
Theorem trimList_removes_at_most_half (labels : list Ast) :
  trimList labels `sublist_of` labels ∧
  (length labels ≤ 2 * length (trimList labels))%nat.
Proof.
  remember (length labels) as n eqn:Hn.
  revert labels Hn. induction n as [n IH] using lt_wf_ind. intros labels Hn.
  destruct labels as [|x rest]; [split; [apply sublist_nil_l | cbn in *; lia]|].
  rewrite trimList_cons. cbn [length] in *.
  pose proof (removeFirstEqual_length x rest) as Hle.
  pose proof (removeFirstEqual_drops_one x rest) as Hge.
  pose proof (removeFirstEqual_sublist x rest) as Hsub.
  destruct (IH (length (fst (removeFirstEqual x rest))) ltac:(lia) _ eq_refl) as [Hs Hl].
  split.
  - apply sublist_skip. by etrans.
  - lia.
Qed.

(** A list in which no entry equals a later one is left as it is. *)
Theorem trimList_keeps_distinct (labels : list Ast) :
  pairwiseDistinct labels → trimList labels = labels.
Proof.
  induction labels as [|x rest IH]; intros Hd; [reflexivity|].
  rewrite trimList_cons.
  assert (Hx : Forall (λ e, astNodeEqual x e = false) rest).
  { apply Forall_lookup. intros j y Hy. by apply (Hd 0%nat (S j) x y); [lia| |]. }
  rewrite (removeFirstEqual_none _ _ Hx). cbn [fst]. f_equal. apply IH.
  intros i j a b Hij Ha Hb. by apply (Hd (S i) (S j) a b); [lia| |].
Qed.

(** The theorem at the two labels [a], [b]. *)
Lemma trimList_keeps_distinct_witness :
  trimList [var "a" "0"; var "b" "1"] = [var "a" "0"; var "b" "1"].
Proof.
  apply trimList_keeps_distinct.
  intros [|[|i]] [|[|j]] x y Hij Hx Hy; cbn in *; try lia; try discriminate.
  injection Hx as <-. injection Hy as <-. vm_compute. reflexivity.
Defined.

(** ** The label collectors *)

Lemma findLabelsInHalfStatements_unfold ast :
  findLabelsInHalfStatements ast = findLabelsEach (Children ast).
Proof. destruct ast. reflexivity. Qed.

Lemma addLabelsInConditionStatement_unfold ast :
  addLabelsInConditionStatement ast =
  flat_map (λ c, if isBasicLabel c then [c] else addLabelsInConditionStatement c)
           (Children ast).
Proof. destruct ast. reflexivity. Qed.

Lemma addLabelsInLeftValue_unfold ast :
  addLabelsInLeftValue ast =
  flat_map (λ c, if isBasicLabel c then [c] else addLabelsInLeftValue c) (Children ast).
Proof. destruct ast. reflexivity. Qed.

Lemma addLabelsInLeftValue_same ast :
  addLabelsInLeftValue ast = addLabelsInConditionStatement ast.
Proof.
  induction ast as [l p e at_ cs IH] using Ast_ind'.
  rewrite addLabelsInLeftValue_unfold, addLabelsInConditionStatement_unfold. cbn [Children].
  induction IH as [|c cs Hc _ IHcs]; cbn [flat_map]; [reflexivity|].
  by rewrite Hc, IHcs.
Qed.

Lemma addLabelsInConditionStatement_trackable ast :
  trackable (addLabelsInConditionStatement ast).
Proof.
  induction ast as [l p e at_ cs IH] using Ast_ind'.
  rewrite addLabelsInConditionStatement_unfold. cbn [Children]. unfold trackable in *.
  induction IH as [|c cs Hc _ IHcs]; cbn [flat_map]; [constructor|].
  apply Forall_app. split; [|exact IHcs].
  destruct (isBasicLabel c) eqn:Hb; [by repeat constructor | exact Hc].
Qed.

(** What [findLabelsInHalfStatements] returns, for a node and its children. *)
Lemma findLabels_trackable_below ast :
  (∀ ls, findLabelsInHalfStatements ast = Some ls → trackable ls) ∧
  Forall (λ c, ∀ ls, findLabelsInHalfStatements c = Some ls → trackable ls) (Children ast).
Proof.
  induction ast as [l p e at_ cs IH] using Ast_ind'. cbn [Children].
  assert (Hcs : Forall (λ c, ∀ ls, findLabelsInHalfStatements c = Some ls → trackable ls) cs).
  { eapply Forall_impl; [exact IH|]. by intros c [Hc _]. }
  split; [|exact Hcs].
  rewrite findLabelsInHalfStatements_unfold. cbn [Children]. clear Hcs.
  induction IH as [|c cs [Hc Hbelow] _ IHcs]; cbn [findLabelsEach]; intros ls.
  { intros [= <-]. constructor. }
  match goal with |- mbind _ ?o = _ → _ => destruct o as [here|] eqn:Hhere end;
    cbn [mbind option_bind]; [|discriminate].
  destruct (findLabelsEach cs) as [rest|]; cbn [mbind option_bind]; [|discriminate].
  intros [= <-]. apply Forall_app. split; [|by apply IHcs].
  destruct (Contains (Label c) "CallExpr").
  - destruct (Children c) as [|fn [|args more]]; try discriminate.
    inversion Hbelow as [|? ? _ Hrest]; subst. inversion Hrest as [|? ? Hargs _]; subst.
    by apply Hargs.
  - destruct (isBasicLabel c) eqn:Hb; [|by apply Hc].
    injection Hhere as <-. by repeat constructor.
Qed.

(** Whatever the three collectors return is trackable: every collected node
    passes [isBasicLabel]. *)
Theorem collected_labels_are_trackable (ast : Ast) :
  trackable (addLabelsInConditionStatement ast) ∧
  trackable (addLabelsInLeftValue ast) ∧
  match findLabelsInHalfStatements ast with
  | Some ls => trackable ls
  | None => True
  end.
Proof.
  split; [apply addLabelsInConditionStatement_trackable|]. split.
  - rewrite addLabelsInLeftValue_same. apply addLabelsInConditionStatement_trackable.
  - destruct (findLabelsInHalfStatements ast) as [ls|] eqn:Hls; [|done].
    by apply (findLabels_trackable_below ast).
Qed.

(** The collector of the left-hand labels and the collector of the condition
    labels are the same function. *)
Theorem left_value_labels_like_condition_labels (ast : Ast) :
  addLabelsInLeftValue ast = addLabelsInConditionStatement ast.
Proof. apply addLabelsInLeftValue_same. Qed.

Lemma callFree_unfold ast :
  callFree ast =
  forallb (λ c, negb (Contains (Label c) "CallExpr") && callFree c) (Children ast).
Proof. destruct ast. reflexivity. Qed.

(** On a tree without call expressions [findLabelsInHalfStatements] does not
    panic and collects what the condition collector collects. *)
Theorem half_statement_labels_without_calls (ast : Ast) :
  callFree ast = true →
  findLabelsInHalfStatements ast = Some (addLabelsInConditionStatement ast).
Proof.
  induction ast as [l p e at_ cs IH] using Ast_ind'.
  rewrite callFree_unfold, findLabelsInHalfStatements_unfold,
    addLabelsInConditionStatement_unfold. cbn [Children].
  induction IH as [|c cs Hc _ IHcs]; cbn [forallb findLabelsEach flat_map]; [reflexivity|].
  rewrite !andb_true_iff, negb_true_iff. intros [[Hcall Hfree] Hrest].
  rewrite Hcall, (IHcs Hrest).
  destruct (isBasicLabel c); cbn [mbind option_bind]; [reflexivity|].
  by rewrite (Hc Hfree).
Qed.

(** The theorem at the right-hand side of [x := a + 1]. *)
Lemma half_statement_labels_without_calls_witness :
  findLabelsInHalfStatements
    (slice "[]ast.Expr" [BinaryExpr (var "a") "+" (BasicLit "INT" "1")] "Rhs") =
  Some (addLabelsInConditionStatement
          (slice "[]ast.Expr" [BinaryExpr (var "a") "+" (BasicLit "INT" "1")] "Rhs")).
Proof.
  apply half_statement_labels_without_calls. vm_compute. reflexivity.
Defined.

(** ** What the detector reports *)

Lemma findExchangeableSentences_unfold ast functionArguments :
  findExchangeableSentences ast functionArguments =
  if Contains (Label ast) "List : []ast.Stmt" then
    st ← scanStatements functionArguments (mkScan [] [] []) (Children ast);
    Some (pos st)
  else findEach functionArguments (Children ast).
Proof. destruct ast. reflexivity. Qed.

Lemma scanStatement_reportable functionArguments st s st' :
  scanStatement functionArguments st s = Some st' →
  pos st' = pos st ∨ (pos st' = pos st ++ [s] ∧ reportable s).
Proof.
  unfold scanStatement, reportable, isIncDec, isReassignment. intros H.
  destruct (Contains (Label s) "IfStmt") eqn:Hif; [injection H as <-; by left|].
  destruct (Contains (Label s) "IncDecStmt") eqn:Hinc.
  { match type of H with mbind _ ?o = _ => destruct o as [[|]|] end;
      cbn [mbind option_bind] in H; [| |discriminate]; injection H as <-; cbn [pos];
      [by left | right; split; [reflexivity | by left]]. }
  destruct (Contains (Label s) "AssignStmt") eqn:Has; [|injection H as <-; by left].
  destruct (String.eqb (attr s "Tok") ":=") eqn:Htok.
  { destruct (Children s !! 0%nat); cbn [mbind option_bind] in H; [|discriminate].
    injection H as <-. by left. }
  apply String.eqb_neq in Htok.
  destruct (Children s !! 0%nat) as [lhs|]; cbn [mbind option_bind] in H; [|discriminate].
  destruct (checkLabelsInAssignStatementLeftHandedSide lhs (labelsInCondition st));
    [injection H as <-; by left|].
  destruct (Children s !! 1%nat) as [rhs|]; cbn [mbind option_bind] in H; [|discriminate].
  destruct (checkLabelsInAssignStatementRightHandedSide rhs functionArguments
              (labelsInLeftHandedSide st)) as [[|]|];
    cbn [mbind option_bind] in H; [| |discriminate]; injection H as <-; cbn [pos];
    [by left | right; split; [reflexivity | by right]].
Qed.

Lemma scanStatements_reportable functionArguments stmts : ∀ st st',
  scanStatements functionArguments st stmts = Some st' →
  Forall reportable (pos st) → Forall reportable (pos st').
Proof.
  induction stmts as [|s stmts IH]; intros st st'; cbn [scanStatements].
  - by intros [= <-].
  - destruct (scanStatement functionArguments st s) as [st1|] eqn:Hs; [|discriminate].
    cbn [mbind option_bind]. intros H Hpos. apply (IH _ _ H).
    apply scanStatement_reportable in Hs as [->|[-> Hr]]; [done|].
    apply Forall_app. split; [done|]. by apply Forall_singleton.
Qed.

(** On any tree, every statement the detector reports is an increment or
    decrement statement or an assignment whose token is not [:=]; an [if], a
    declaration with [:=] or a statement of another kind is never reported. *)
Theorem detector_reports_incdec_and_reassignments
    (ast : Ast) (functionArguments found : list Ast) :
  findExchangeableSentences ast functionArguments = Some found →
  Forall reportable found.
Proof.
  revert found. induction ast as [l p e at_ cs IH] using Ast_ind'. intros found.
  rewrite findExchangeableSentences_unfold. cbn [Label Children].
  destruct (Contains l "List : []ast.Stmt").
  - destruct (scanStatements functionArguments (mkScan [] [] []) cs) as [st|] eqn:Hs;
      [|discriminate].
    cbn [mbind option_bind]. intros [= <-].
    apply (scanStatements_reportable _ _ _ _ Hs). constructor.
  - revert found. induction IH as [|c cs Hc _ IHcs]; intros found; cbn [findEach].
    { intros [= <-]. constructor. }
    destruct (findExchangeableSentences c functionArguments) as [here|];
      cbn [mbind option_bind]; [|discriminate].
    destruct (findEach functionArguments cs) as [rest|]; cbn [mbind option_bind];
      [|discriminate].
    intros [= <-]. apply Forall_app. split; [by apply Hc | by apply IHcs].
Qed.

(** The theorem at [func f(a int, b int) { x := a + 1; b = x }]. *)
Lemma detector_reports_incdec_and_reassignments_witness :
  Forall reportable [AssignStmt [var "b"] "=" [var "x"] "1"].
Proof.
  apply (detector_reports_incdec_and_reassignments (f None) [var "a" "0"; var "b" "0"]).
  vm_compute. reflexivity.
Defined.

(** ** The check of the right-hand side *)

Lemma memberOf_subseteq x (labels labels' : list Ast) :
  labels ⊆ labels' → memberOf x labels = true → memberOf x labels' = true.
Proof.
  intros Hsub. rewrite !memberOf_elem. intros (l & Hl & He). exists l. split; [|done].
  by apply Hsub.
Qed.

Lemma checkRightHandedSide_from_monotone cs :
  ∀ more functionArguments functionArguments' labels labels',
    functionArguments ⊆ functionArguments' → labels ⊆ labels' →
    checkRightHandedSide_from cs functionArguments labels = Some false →
    checkRightHandedSide_from (cs ++ more) functionArguments' labels' = Some false.
Proof.
  intros more fa fa' ls ls' Hfa Hls.
  induction cs as [|c cs IH]; [discriminate|]. cbn [checkRightHandedSide_from app].
  destruct (Contains (Label c) "BasicLit"); [done|].
  destruct (Contains (Label c) "*ast.Ident").
  { destruct (memberOf c fa) eqn:Ha.
    - by rewrite (memberOf_subseteq _ _ _ Hfa Ha).
    - destruct (memberOf c fa'); [done|].
      destruct (memberOf c ls) eqn:Hl.
      + by rewrite (memberOf_subseteq _ _ _ Hls Hl).
      + destruct (memberOf c ls'); [done | exact IH]. }
  destruct (Contains (Label c) "CallExpr"); [|exact IH].
  destruct (Children c !! 1%nat) as [args|]; cbn [mbind option_bind]; [|discriminate].
  destruct (Children args) as [|z zs]; [exact IH|].
  destruct (memberOf z fa) eqn:Ha.
  - by rewrite (memberOf_subseteq _ _ _ Hfa Ha).
  - destruct (memberOf z ls) eqn:Hl; [|discriminate].
    rewrite (memberOf_subseteq _ _ _ Hls Hl). by destruct (memberOf z fa').
Qed.

(** A right-hand side that the check lets through (answer [false]) is let
    through as well with further children after it and with more formal
    parameters or declared labels: the first child that decides has decided,
    whatever follows it. *)
Theorem resolved_right_hand_side_stays_resolved
    (rhs rhs' : Ast) (more functionArguments functionArguments' labels labels' : list Ast) :
  Children rhs' = Children rhs ++ more →
  functionArguments ⊆ functionArguments' →
  labels ⊆ labels' →
  checkLabelsInAssignStatementRightHandedSide rhs functionArguments labels = Some false →
  checkLabelsInAssignStatementRightHandedSide rhs' functionArguments' labels' = Some false.
Proof.
  unfold checkLabelsInAssignStatementRightHandedSide. intros -> Hfa Hls.
  by apply checkRightHandedSide_from_monotone.
Qed.

(** The theorem at the right-hand sides [x] and [x, y], [x] declared. *)
Lemma resolved_right_hand_side_stays_resolved_witness :
  checkLabelsInAssignStatementRightHandedSide
    (slice "[]ast.Expr" [var "x"; free "y"] "Rhs") [var "a" "0"] [var "x" "0"] = Some false.
Proof.
  apply (resolved_right_hand_side_stays_resolved
           (slice "[]ast.Expr" [var "x"] "Rhs") _ [free "y" "1"] [] _ [var "x" "0"]).
  - vm_compute. reflexivity.
  - apply list_subseteq_nil.
  - done.
  - vm_compute. reflexivity.
Defined.

(** ** The expansion of candidates *)

(** What step 1 of [expendKernels] finds: nothing, and then no statement
    below [n] equals the kernel, or the last statement below [n] that does. *)
Lemma lastEqual_spec stmts kernel n :
  (lastEqual stmts kernel n = (-1)%Z ∧
   ∀ j t, (j < n)%nat → stmts !! j = Some t → astNodeEqual t kernel = false) ∨
  (∃ i s, lastEqual stmts kernel n = Z.of_nat i ∧ (i < n)%nat ∧ stmts !! i = Some s ∧
          astNodeEqual s kernel = true ∧
          ∀ j t, (i < j < n)%nat → stmts !! j = Some t → astNodeEqual t kernel = false).
Proof.
  induction n as [|n IH]; cbn [lastEqual].
  { left. split; [reflexivity | intros; lia]. }
  destruct (stmts !! n) as [s|] eqn:Hs.
  - destruct (astNodeEqual s kernel) eqn:He.
    + right. exists n, s. repeat split; [lia | done | done | intros; lia].
    + destruct IH as [[Hx Hall]|(i & s' & Hx & Hi & Hs' & He' & Hall)].
      * left. split; [done|]. intros j t Hj Ht.
        destruct (decide (j = n)) as [->|]; [congruence | apply (Hall j); [lia | done]].
      * right. exists i, s'. repeat split; [done | lia | done | done |].
        intros j t Hj Ht.
        destruct (decide (j = n)) as [->|]; [congruence | apply (Hall j); [lia | done]].
  - destruct IH as [[Hx Hall]|(i & s' & Hx & Hi & Hs' & He' & Hall)].
    + left. split; [done|]. intros j t Hj Ht.
      destruct (decide (j = n)) as [->|]; [congruence | apply (Hall j); [lia | done]].
    + right. exists i, s'. repeat split; [done | lia | done | done |].
      intros j t Hj Ht.
      destruct (decide (j = n)) as [->|]; [congruence | apply (Hall j); [lia | done]].
Qed.

Lemma child_of_nat ast (i : nat) : child ast (Z.of_nat i) = Children ast !! i.
Proof.
  unfold child. destruct (Z.ltb_spec (Z.of_nat i) 0); [lia|]. by rewrite Nat2Z.id.
Qed.

(** The walk only appends to what is collected already. *)
Lemma expendWalk_appends stmts n : ∀ tempLabels collected more,
  expendWalk stmts n tempLabels (collected ++ more) =
  (λ r, collected ++ r) <$> expendWalk stmts n tempLabels more.
Proof.
  induction n as [|n IH]; intros tempLabels collected more; cbn [expendWalk]; [reflexivity|].
  destruct (Nat.eqb (length tempLabels) 0); [reflexivity|].
  destruct (stmts !! n) as [s|]; cbn [mbind option_bind]; [|reflexivity].
  destruct (Contains (Label s) "AssignStmt"); [|apply IH].
  destruct (Children s !! 0%nat) as [lhs|]; cbn [mbind option_bind]; [|reflexivity].
  destruct (resolveTargets (Children lhs) tempLabels false) as [tempLabels' [|]]; [|apply IH].
  destruct (Children s !! 1%nat) as [rhs|]; cbn [mbind option_bind]; [|reflexivity].
  destruct (findLabelsInHalfStatements rhs) as [new|]; cbn [mbind option_bind];
    [|reflexivity].
  rewrite <- app_assoc. apply IH.
Qed.

Lemma expendKernel_appends ast kernel collected :
  expendKernel ast kernel collected =
  (λ r, collected ++ r) <$> expendKernel ast kernel [].
Proof.
  unfold expendKernel.
  destruct (child ast _) as [s|]; cbn [mbind option_bind]; [|reflexivity].
  destruct (Children s !! 1%nat) as [rhs|]; cbn [mbind option_bind]; [|reflexivity].
  destruct (findLabelsInHalfStatements rhs) as [labels|]; cbn [mbind option_bind];
    [|reflexivity].
  apply expendWalk_appends.
Qed.

Lemma expendKernels_from_appends ast kernels : ∀ collected,
  expendKernels_from ast kernels collected =
  (λ r, collected ++ r) <$> expendKernels_from ast kernels [].
Proof.
  induction kernels as [|k ks IH]; intros collected; cbn [expendKernels_from].
  { cbn. by rewrite app_nil_r. }
  rewrite (expendKernel_appends ast k collected).
  destruct (expendKernel ast k []) as [r|]; cbn [fmap option_fmap option_map mbind option_bind];
    [|reflexivity].
  cbn [app]. rewrite (IH (collected ++ r)), (IH r).
  destruct (expendKernels_from ast ks []) as [r'|]; cbn; [|reflexivity].
  by rewrite app_assoc.
Qed.

(** Candidates are expanded one by one: the result for a list of candidates
    is the chain of the first followed by the result for the others, and it
    panics if one of them does. *)
Theorem expendKernels_one_by_one (ast : Ast) (kernels1 kernels2 : list Ast) :
  expendKernels ast (kernels1 ++ kernels2) =
  (chains1 ← expendKernels ast kernels1;
   chains2 ← expendKernels ast kernels2;
   Some (chains1 ++ chains2)).
Proof.
  unfold expendKernels. generalize (@nil Ast) at 1 3 as collected.
  induction kernels1 as [|k ks IH]; intros collected; cbn [app expendKernels_from].
  - cbn [mbind option_bind]. apply expendKernels_from_appends.
  - destruct (expendKernel ast k collected) as [r|]; cbn [mbind option_bind]; [|reflexivity].
    apply IH.
Qed.

(** What the walk appends: assignment statements that stand before the place
    it started from. *)
Lemma expendWalk_collects stmts n : ∀ tempLabels collected chain,
  expendWalk stmts n tempLabels collected = Some chain →
  ∃ more, chain = collected ++ more ∧
          Forall (λ t, Contains (Label t) "AssignStmt" = true ∧
                       ∃ j, (j < n)%nat ∧ stmts !! j = Some t) more.
Proof.
  induction n as [|n IH]; intros tempLabels collected chain; cbn [expendWalk].
  { intros [= <-]. exists []. by rewrite app_nil_r. }
  assert (Hweak : ∀ more,
            Forall (λ t, Contains (Label t) "AssignStmt" = true ∧
                         ∃ j, (j < n)%nat ∧ stmts !! j = Some t) more →
            Forall (λ t, Contains (Label t) "AssignStmt" = true ∧
                         ∃ j, (j < S n)%nat ∧ stmts !! j = Some t) more).
  { intros more Hm. eapply Forall_impl; [exact Hm|]. intros t (Ht & j & Hj & Hs).
    split; [done|]. exists j. split; [lia | done]. }
  destruct (Nat.eqb (length tempLabels) 0).
  { intros [= <-]. exists []. by rewrite app_nil_r. }
  destruct (stmts !! n) as [s|] eqn:Hs; cbn [mbind option_bind]; [|discriminate].
  destruct (Contains (Label s) "AssignStmt") eqn:Has.
  2:{ intros H. apply IH in H as (more & -> & Hm). exists more. auto. }
  destruct (Children s !! 0%nat) as [lhs|]; cbn [mbind option_bind]; [|discriminate].
  destruct (resolveTargets (Children lhs) tempLabels false) as [tempLabels' [|]].
  2:{ intros H. apply IH in H as (more & -> & Hm). exists more. auto. }
  destruct (Children s !! 1%nat) as [rhs|]; cbn [mbind option_bind]; [|discriminate].
  destruct (findLabelsInHalfStatements rhs) as [new|]; cbn [mbind option_bind];
    [|discriminate].
  intros H. apply IH in H as (more & -> & Hm). exists (s :: more).
  rewrite <- app_assoc. split; [done|]. constructor; [|auto].
  split; [done|]. exists n. split; [lia | done].
Qed.

(** The chain of one candidate starts with the last statement of the list
    that is structurally equal to the candidate, and goes on with assignment
    statements that stand before that statement. *)
Theorem chain_starts_at_last_equal_statement (ast kernel : Ast) (chain : list Ast) :
  expendKernels ast [kernel] = Some chain →
  ∃ i s more,
    chain = s :: more ∧ Children ast !! i = Some s ∧ astNodeEqual s kernel = true ∧
    (∀ j t, (i < j)%nat → Children ast !! j = Some t → astNodeEqual t kernel = false) ∧
    Forall (λ t, Contains (Label t) "AssignStmt" = true ∧
                 ∃ j, (j < i)%nat ∧ Children ast !! j = Some t) more.
Proof.
  unfold expendKernels. cbn [expendKernels_from]. unfold expendKernel.
  destruct (lastEqual_spec (Children ast) kernel (length (Children ast)))
    as [[-> _]|(i & s & -> & Hi & Hs & He & Hlast)]; [discriminate|].
  rewrite child_of_nat, Hs, Nat2Z.id. cbn [mbind option_bind app].
  destruct (Children s !! 1%nat) as [rhs|]; cbn [mbind option_bind]; [|discriminate].
  destruct (findLabelsInHalfStatements rhs) as [labels|]; cbn [mbind option_bind];
    [|discriminate].
  destruct (expendWalk (Children ast) i (trimList labels) [s]) as [r|] eqn:Hw;
    cbn [mbind option_bind]; [|discriminate].
  intros [= <-]. apply expendWalk_collects in Hw as (more & -> & Hm).
  exists i, s, more. repeat split; [done | done | | done].
  intros j t Hj Ht. apply (Hlast j); [|done]. split; [done|].
  by apply lookup_lt_Some in Ht.
Qed.

(** The theorem at [b = x] in the body of [f]. *)
Lemma chain_starts_at_last_equal_statement_witness :
  ∃ i s more,
    [AssignStmt [var "b"] "=" [var "x"] "1";
     AssignStmt [var "x"] ":=" [BinaryExpr (var "a") "+" (BasicLit "INT" "1")] "0"]
    = s :: more ∧
    Children (slice "[]ast.Stmt" f_body "List") !! i = Some s ∧
    astNodeEqual s (AssignStmt [var "b"] "=" [var "x"] "1") = true ∧
    (∀ j t, (i < j)%nat → Children (slice "[]ast.Stmt" f_body "List") !! j = Some t →
            astNodeEqual t (AssignStmt [var "b"] "=" [var "x"] "1") = false) ∧
    Forall (λ t, Contains (Label t) "AssignStmt" = true ∧
                 ∃ j, (j < i)%nat ∧ Children (slice "[]ast.Stmt" f_body "List") !! j = Some t)
           more.
Proof.
  apply chain_starts_at_last_equal_statement. vm_compute. reflexivity.
Defined.

Lemma astNodeEqual_same_arity a b :
  astNodeEqual a b = true → nameBearing a && nameBearing b = false →
  length (Children a) = length (Children b).
Proof.
  rewrite astNodeEqual_unfold. intros H Hn. rewrite Hn in H.
  destruct (Nat.eqb_spec (length (Children a)) (length (Children b))); [done | discriminate].
Qed.

(** A candidate of the list that has fewer than two children and bears no
    name in its label (an increment or decrement statement) makes the
    expansion panic: the statement found for it has as many children, and
    its second child is read. *)
Theorem kernel_without_second_child_panics (ast kernel : Ast) (kernels : list Ast) :
  kernel ∈ Children ast →
  nameBearing kernel = false →
  (length (Children kernel) < 2)%nat →
  expendKernels ast (kernel :: kernels) = None.
Proof.
  intros Hin Hname Hlen. unfold expendKernels. cbn [expendKernels_from]. unfold expendKernel.
  destruct (lastEqual_spec (Children ast) kernel (length (Children ast)))
    as [[_ Hnone]|(i & s & -> & Hi & Hs & He & _)].
  { apply list_elem_of_lookup in Hin as [j Hj].
    pose proof (lookup_lt_Some _ _ _ Hj) as Hlt.
    pose proof (Hnone j kernel Hlt Hj) as Hne. by rewrite astNodeEqual_refl in Hne. }
  rewrite child_of_nat, Hs. cbn [mbind option_bind].
  apply astNodeEqual_same_arity in He; [|by rewrite Hname, andb_false_r].
  rewrite (lookup_ge_None_2 (Children s) 1) by lia. reflexivity.
Qed.

(** The theorem at [i++] in the body of [count]. *)
Lemma kernel_without_second_child_panics_witness :
  expendKernels (slice "[]ast.Stmt" count_body "List") (IncDecStmt (var "i") "++" "1" :: []) = None.
Proof.
  apply kernel_without_second_child_panics.
  - vm_compute. apply list_elem_of_further, list_elem_of_here.
  - vm_compute. reflexivity.
  - vm_compute. lia.
Defined.

(** ** Positions *)

Lemma constant_sorted (x : nat) (l : list nat) :
  Forall (λ p, p = x) l → StronglySorted le l.
Proof.
  induction l as [|p l IH]; intros H; [constructor|].
  inversion H as [|? ? -> Hl]; subst. constructor; [by apply IH|].
  eapply Forall_impl; [exact Hl|]. intros q ->. lia.
Qed.

Lemma matchArguments_bounds arguments labels : ∀ x,
  Forall (λ p, (x ≤ p < x + length arguments)%nat) (matchArguments x arguments labels) ∧
  StronglySorted le (matchArguments x arguments labels).
Proof.
  induction arguments as [|a arguments IH]; intros x; cbn [matchArguments length].
  { split; constructor. }
  destruct (IH (S x)) as [Hb Hs].
  set (here := map (λ _ : Ast, x) (List.filter (astNodeEqual a) labels)).
  assert (Hhere : Forall (λ p, p = x) here).
  { unfold here. induction (List.filter (astNodeEqual a) labels); cbn; by constructor. }
  split.
  - apply Forall_app. split.
    + eapply Forall_impl; [exact Hhere|]. intros p ->. lia.
    + eapply Forall_impl; [exact Hb|]. intros p Hp. cbn beta in Hp. lia.
  - apply StronglySorted_app_2; [| |exact Hs].
    + intros p q Hp Hq. rewrite Forall_forall in Hhere, Hb.
      apply Hhere in Hp as ->. apply Hb in Hq. lia.
    + by apply (constant_sorted x).
Qed.

(** The positions computed for a function are positions of its parameter
    list, in ascending order (a position can be repeated). *)
Theorem positions_are_parameter_positions
    (ast : Ast) (M : PositionMap) (arguments : list Ast) (isGet : bool) (ps : list nat) :
  findGetOrPutStateList ast M arguments isGet = Some ps →
  Forall (λ p, (p < length arguments)%nat) ps ∧ StronglySorted le ps.
Proof.
  unfold findGetOrPutStateList.
  destruct (collectStateLabels _ _ _ _ _) as [tempLabels|]; cbn [mbind option_bind];
    [|discriminate].
  destruct (reduceToBase tempLabels) as [reduced|]; cbn [mbind option_bind]; [|discriminate].
  intros [= <-]. destruct (matchArguments_bounds arguments (trimList reduced) 0) as [Hb Hs].
  split; [|exact Hs]. eapply Forall_impl; [exact Hb|]. intros p Hp. cbn beta in Hp. lia.
Qed.

(** The theorem at the body of [loadAccount]. *)
Lemma positions_are_parameter_positions_witness :
  Forall (λ p, (p < length [var "id" "0"])%nat) [0%nat] ∧ StronglySorted le [0%nat].
Proof.
  apply (positions_are_parameter_positions
           (slice "[]ast.Stmt" loadAccount_body "List") ∅ [var "id" "0"] true).
  vm_compute. reflexivity.
Defined.

(** Of the labels left by the backward loop only the first selector or index
    expression is replaced by its first child, which goes to the end of the
    list: the loop removes the element it stands on and ends there.  The
    labels before it and after it stay as they are. *)
Theorem only_first_selector_is_reduced (before after : list Ast) (e base : Ast) :
  Forall (λ l, isSelectorOrIndex l = false) before →
  isSelectorOrIndex e = true →
  Children e !! 0%nat = Some base →
  reduceToBase (before ++ e :: after) = Some (before ++ after ++ [base]).
Proof.
  unfold isSelectorOrIndex. intros Hb He Hbase.
  induction Hb as [|l before Hl _ IH]; cbn [app reduceToBase].
  - by rewrite He, Hbase.
  - by rewrite Hl, IH.
Qed.

(** The theorem at the labels [id], [account.Key], [account.Bytes]. *)
Lemma only_first_selector_is_reduced_witness :
  reduceToBase ([var "id" "0"] ++ SelectorExpr (var "account") "Key" "0"
                               :: [SelectorExpr (var "account") "Bytes" "1"]) =
  Some ([var "id" "0"] ++ [SelectorExpr (var "account") "Bytes" "1"] ++ [var "account" "X"]).
Proof.
  apply only_first_selector_is_reduced.
  - repeat constructor.
  - vm_compute. reflexivity.
  - vm_compute. reflexivity.
Defined.

(** ** The maps of phase 2 *)

Lemma keysKept_insert (M : PositionMap) k v : keysKept M (<[k := v]> M).
Proof. intros j Hj. apply lookup_insert_is_Some'. by right. Qed.

Lemma keysKept_refl (M : PositionMap) : keysKept M M.
Proof. by intros k Hk. Qed.

(** What one declaration does to the maps: keys are kept; a function
    declaration gets an entry in both maps under its name. *)
Lemma sweepDeclaration_keys st decl st' :
  sweepDeclaration st decl = Some st' →
  keysKept (GetStateMap st) (GetStateMap st') ∧
  keysKept (PutStateMap st) (PutStateMap st') ∧
  (Contains (Label decl) "FuncDecl" = true →
   ∃ name, child decl (len decl - 3) = Some name ∧
           is_Some (GetStateMap st' !! attr name "Name") ∧
           is_Some (PutStateMap st' !! attr name "Name")).
Proof.
  unfold sweepDeclaration.
  destruct (Contains (Label decl) "FuncDecl").
  2:{ intros [= <-]. split; [apply keysKept_refl|]. split; [apply keysKept_refl | done]. }
  destruct (declaredArgumentsFromEnd decl) as [arguments|]; cbn [mbind option_bind];
    [|discriminate].
  destruct (child decl (len decl - 3)) as [name|]; cbn [mbind option_bind]; [|discriminate].
  destruct (child decl (len decl - 1)) as [body|]; cbn [mbind option_bind]; [|discriminate].
  destruct (Children body !! 0%nat) as [stmts|]; cbn [mbind option_bind]; [|discriminate].
  destruct (findGetOrPutStateList stmts (GetStateMap st) arguments true) as [gets|];
    cbn [mbind option_bind]; [|discriminate].
  destruct (decide (GetStateMap st !! attr name "Name" = Some gets)) as [Hg|_].
  - destruct (findGetOrPutStateList stmts (GetStateMap st) arguments false) as [puts|];
      cbn [mbind option_bind]; [|discriminate].
    destruct (decide (PutStateMap st !! attr name "Name" = Some puts)) as [Hp|_];
      intros [= <-]; cbn [GetStateMap PutStateMap];
      (split; [apply keysKept_refl|]);
      (split; [first [apply keysKept_refl | apply keysKept_insert]|]);
      intros _; exists name; rewrite Hg, ?Hp, ?lookup_insert_eq; by repeat split.
  - cbn [GetStateMap PutStateMap].
    destruct (findGetOrPutStateList stmts _ arguments false) as [puts|];
      cbn [mbind option_bind]; [|discriminate].
    destruct (decide (PutStateMap st !! attr name "Name" = Some puts)) as [Hp|_];
      intros [= <-]; cbn [GetStateMap PutStateMap];
      (split; [apply keysKept_insert|]);
      (split; [first [apply keysKept_refl | apply keysKept_insert]|]);
      intros _; exists name; rewrite ?Hp, ?lookup_insert_eq; by repeat split.
Qed.

Lemma sweepDeclarations_keys decls : ∀ st st',
  sweepDeclarations st decls = Some st' →
  keysKept (GetStateMap st) (GetStateMap st') ∧
  keysKept (PutStateMap st) (PutStateMap st') ∧
  Forall (λ decl, Contains (Label decl) "FuncDecl" = true →
                  ∃ name, child decl (len decl - 3) = Some name ∧
                          is_Some (GetStateMap st' !! attr name "Name") ∧
                          is_Some (PutStateMap st' !! attr name "Name")) decls.
Proof.
  induction decls as [|d decls IH]; intros st st'; cbn [sweepDeclarations].
  { intros [= <-]. split; [apply keysKept_refl|]. split; [apply keysKept_refl | constructor]. }
  destruct (sweepDeclaration st d) as [st1|] eqn:Hd; cbn [mbind option_bind]; [|discriminate].
  intros H. apply IH in H as (Hg & Hp & Hall).
  apply sweepDeclaration_keys in Hd as (Hg1 & Hp1 & Hname).
  split; [intros k Hk; by apply Hg, Hg1|]. split; [intros k Hk; by apply Hp, Hp1|].
  constructor; [|exact Hall].
  intros Hf. destruct (Hname Hf) as (name & Hc & HG & HP). exists name.
  split; [done|]. split; [by apply Hg | by apply Hp].
Qed.

(** When phase 2 returns, every function declaration of the program has an
    entry under its name in the GetState map and in the PutState map, be it
    the empty list. *)
Theorem every_function_has_entries
    (fuel : nat) (ast : Ast) (G P : PositionMap) :
  analyzeReadWriteAPI fuel ast = Returned (G, P) →
  Forall (λ decl, Contains (Label decl) "FuncDecl" = true →
                  ∃ name, child decl (len decl - 3) = Some name ∧
                          is_Some (G !! attr name "Name") ∧
                          is_Some (P !! attr name "Name")) (Children ast).
Proof.
  unfold analyzeReadWriteAPI. generalize (∅ : PositionMap) at 1 as G0.
  generalize (∅ : PositionMap) as P0.
  induction fuel as [|fuel IH]; intros P0 G0; [discriminate|].
  rewrite analyzeReadWriteAPI_from_S.
  destruct (sweep ast G0 P0) as [st|] eqn:Hs; [|discriminate].
  destruct (flag st); [apply IH|].
  intros [= <- <-]. unfold sweep in Hs. by apply sweepDeclarations_keys in Hs as (_ & _ & ?).
Qed.

(** The theorem at the program made of [loadAccount]. *)
Lemma every_function_has_entries_witness :
  Forall (λ decl, Contains (Label decl) "FuncDecl" = true →
                  ∃ name, child decl (len decl - 3) = Some name ∧
                          is_Some (({["loadAccount" := [0%nat]]} : PositionMap)
                                     !! attr name "Name") ∧
                          is_Some (({["loadAccount" := []]} : PositionMap)
                                     !! attr name "Name"))
         (Children (Decls [loadAccount])).
Proof.
  apply (every_function_has_entries 2 (Decls [loadAccount])).
  vm_compute. reflexivity.
Defined.

(** The theorem that the loop returns maps a pass leaves unchanged, at the
    program made of [loadAccount]. *)
Lemma returned_is_stable_witness :
  sweep (Decls [loadAccount]) {["loadAccount" := [0%nat]]} {["loadAccount" := []]} =
  Some (mkSweep {["loadAccount" := [0%nat]]} {["loadAccount" := []]} false).
Proof.
  apply (returned_is_stable 2 (Decls [loadAccount]) ∅ ∅).
  vm_compute. reflexivity.
Defined.

(** No position is computed from the PutState map, which is read only to
    see whether an entry changes: the GetState map after a declaration and
    the PutState entry of the declaration are the same whatever PutState map
    (and flag) the pass starts from.  The callee positions of the PutState
    computation come from the GetState map. *)
Theorem positions_never_come_from_PutStateMap
    (G P P' : PositionMap) (fl fl' : bool) (decl name : Ast) :
  Contains (Label decl) "FuncDecl" = true →
  child decl (len decl - 3) = Some name →
  GetStateMap <$> sweepDeclaration (mkSweep G P fl) decl =
  GetStateMap <$> sweepDeclaration (mkSweep G P' fl') decl ∧
  (λ st, PutStateMap st !! attr name "Name") <$> sweepDeclaration (mkSweep G P fl) decl =
  (λ st, PutStateMap st !! attr name "Name") <$> sweepDeclaration (mkSweep G P' fl') decl.
Proof.
  intros Hf Hname. unfold sweepDeclaration. rewrite Hf, Hname. cbn [GetStateMap PutStateMap].
  destruct (declaredArgumentsFromEnd decl) as [arguments|]; cbn [mbind option_bind];
    [|done].
  destruct (child decl (len decl - 1)) as [body|]; cbn [mbind option_bind]; [|done].
  destruct (Children body !! 0%nat) as [stmts|]; cbn [mbind option_bind]; [|done].
  destruct (findGetOrPutStateList stmts G arguments true) as [gets|];
    cbn [mbind option_bind]; [|done].
  destruct (decide (G !! attr name "Name" = Some gets)) as [Hg|Hg];
    cbn [GetStateMap PutStateMap].
  - destruct (findGetOrPutStateList stmts G arguments false) as [puts|];
      cbn [mbind option_bind]; [|done].
    destruct (decide (P !! attr name "Name" = Some puts)) as [Hp|Hp];
      destruct (decide (P' !! attr name "Name" = Some puts)) as [Hp'|Hp'];
      cbn; rewrite ?lookup_insert_eq, ?Hp, ?Hp'; done.
  - destruct (findGetOrPutStateList stmts _ arguments false) as [puts|];
      cbn [mbind option_bind]; [|done].
    destruct (decide (P !! attr name "Name" = Some puts)) as [Hp|Hp];
      destruct (decide (P' !! attr name "Name" = Some puts)) as [Hp'|Hp'];
      cbn; rewrite ?lookup_insert_eq, ?Hp, ?Hp'; done.
Qed.

(** The theorem at [h] of the program [gh], started from two PutState maps. *)
Lemma positions_never_come_from_PutStateMap_witness :
  GetStateMap <$> sweepDeclaration (mkSweep oddGet ∅ false) (h "1") =
  GetStateMap <$> sweepDeclaration (mkSweep oddGet oddPut true) (h "1") ∧
  (λ st, PutStateMap st !! attr (Ident "h" (Some "func") "Name") "Name")
    <$> sweepDeclaration (mkSweep oddGet ∅ false) (h "1") =
  (λ st, PutStateMap st !! attr (Ident "h" (Some "func") "Name") "Name")
    <$> sweepDeclaration (mkSweep oddGet oddPut true) (h "1").
Proof.
  apply positions_never_come_from_PutStateMap.
  - vm_compute. reflexivity.
  - vm_compute. reflexivity.
Defined.

(** ** Programs without functions *)

Lemma declarationFree_unfold ast :
  declarationFree ast =
  negb (Contains (Label ast) "FuncDecl") && forallb declarationFree (Children ast).
Proof. destruct ast. reflexivity. Qed.

(** Phase 1 on a tree in which no node is labelled as a function declaration
    returns the empty list and does not panic. *)
Theorem phase1_without_declarations (ast : Ast) :
  declarationFree ast = true → analyzeFunctionDeclaration ast = Some [].
Proof.
  induction ast as [l p e at_ cs IH] using Ast_ind'.
  rewrite declarationFree_unfold, analyzeFunctionDeclaration_unfold. cbn [Label Children].
  rewrite andb_true_iff, negb_true_iff. intros [-> Hcs].
  induction IH as [|c cs Hc _ IHcs]; cbn [analyzeEach forallb] in *; [reflexivity|].
  apply andb_true_iff in Hcs as [Hc' Hcs']. by rewrite (Hc Hc'), (IHcs Hcs').
Qed.

(** The theorem at an import declaration list without functions. *)
Lemma phase1_without_declarations_witness :
  analyzeFunctionDeclaration
    (slice "[]ast.Decl" [struct "*ast.GenDecl" [("Tok", "import")] []] "Decls") = Some [].
Proof. apply phase1_without_declarations. vm_compute. reflexivity. Defined.

Lemma sweepDeclarations_without_functions decls st :
  Forall (λ decl, Contains (Label decl) "FuncDecl" = false) decls →
  sweepDeclarations st decls = Some st.
Proof.
  induction 1 as [|d decls Hd _ IH]; cbn [sweepDeclarations]; [reflexivity|].
  unfold sweepDeclaration. by rewrite Hd.
Qed.

(** Phase 2 on a declaration list without function declarations returns two
    empty maps after one pass. *)
Theorem phase2_without_declarations (fuel : nat) (ast : Ast) :
  Forall (λ decl, Contains (Label decl) "FuncDecl" = false) (Children ast) →
  analyzeReadWriteAPI (S fuel) ast = Returned (∅, ∅).
Proof.
  intros H. unfold analyzeReadWriteAPI. rewrite analyzeReadWriteAPI_from_S. unfold sweep.
  by rewrite (sweepDeclarations_without_functions _ _ H).
Qed.

(** The theorem at an import declaration list without functions. *)
Lemma phase2_without_declarations_witness :
  analyzeReadWriteAPI 1
    (slice "[]ast.Decl" [struct "*ast.GenDecl" [("Tok", "import")] []] "Decls") =
  Returned (∅, ∅).
Proof.
  apply phase2_without_declarations. cbn. repeat constructor.
Defined.

(** ** Declarations with fewer than four children *)

(** Phase 1 panics on a function declaration with fewer than four children
    (no doc comment and no receiver) as soon as the detector reports a
    candidate for it: the body is read from the fourth child. *)
Theorem phase1_panics_below_four_children (ast : Ast) (arguments kernels : list Ast) :
  Contains (Label ast) "FuncDecl" = true →
  (length (Children ast) < 4)%nat →
  declaredArguments ast = Some arguments →
  findExchangeableSentences ast arguments = Some kernels →
  kernels ≠ [] →
  analyzeFunctionDeclaration ast = None.
Proof.
  intros Hf Hlen Ha Hk Hne. rewrite analyzeFunctionDeclaration_unfold, Hf, Ha.
  cbn [mbind option_bind]. rewrite Hk. cbn [mbind option_bind].
  destruct kernels as [|k ks]; [done|]. cbn [length Nat.eqb].
  by rewrite (lookup_ge_None_2 (Children ast) 3) by lia.
Qed.

(** The theorem at [func f(a int, b int) { x := a + 1; b = x }] without a
    doc comment; the children read as parameter names are then nodes of the
    first statement. *)
Lemma phase1_panics_below_four_children_witness :
  analyzeFunctionDeclaration (f None) = None.
Proof.
  apply (phase1_panics_below_four_children
           (f None) [Object "var" "x" "Obj"; var "a" "X"]
           [AssignStmt [var "b"] "=" [var "x"] "1"]).
  - vm_compute. reflexivity.
  - vm_compute. lia.
  - vm_compute. reflexivity.
  - vm_compute. reflexivity.
  - discriminate.
Defined.

(** The theorem that a function with candidates contributes one entry, at
    [f] with a doc comment. *)
Lemma kernels_give_one_entry_witness :
  ∃ stmts chain,
    bodyOf (f (Some "// f copies.")) = Some stmts ∧
    expendKernels stmts [AssignStmt [var "b"] "=" [var "x"] "1"] = Some chain ∧
    [[AssignStmt [var "b"] "=" [var "x"] "1";
      AssignStmt [var "x"] ":=" [BinaryExpr (var "a") "+" (BasicLit "INT" "1")] "0"]]
    = [chain].
Proof.
  apply (kernels_give_one_entry (f (Some "// f copies.")) [var "a" "0"; var "b" "0"]).
  - vm_compute. reflexivity.
  - vm_compute. reflexivity.
  - vm_compute. reflexivity.
  - discriminate.
  - vm_compute. reflexivity.
Defined.

(** The rule for increment and decrement statements, at [i++] after
    [if other {}]. *)
Lemma incdec_candidate_witness :
  marked (mkScan [var "other" "Cond"] [] [])
         (mkScan [var "other" "Cond"] [] [IncDecStmt (var "i") "++" "1"])
         (IncDecStmt (var "i") "++" "1") ↔
  ¬ ∃ l, l ∈ labelsInCondition (mkScan [var "other" "Cond"] [] []) ∧
         astNodeEqual (var "i" "X") l = true.
Proof.
  apply (incdec_candidate [var "i" "0"; var "other" "0"]).
  - split; vm_compute; reflexivity.
  - vm_compute. reflexivity.
  - vm_compute. reflexivity.
Defined.

(** ** Labels that are never tracked *)

Lemma prefix_app_l s1 : ∀ sub s2,
  String.prefix sub s1 = true → String.prefix sub (s1 +:+ s2) = true.
Proof.
  induction s1 as [|c1 s1 IH]; intros [|c sub] s2; simpl.
  - intros _. by destruct s2.
  - discriminate.
  - reflexivity.
  - destruct (Ascii.ascii_dec c c1); [apply IH | discriminate].
Qed.

Lemma Contains_app_l s1 s2 sub :
  Contains s1 sub = true → Contains (s1 +:+ s2) sub = true.
Proof.
  induction s1 as [|c s1 IH]; simpl.
  - destruct sub; simpl; [|discriminate]. intros _. by destruct s2.
  - change (match sub with
            | "" => true
            | String a sub' =>
              if Ascii.ascii_dec a c then String.prefix sub' s1 else false
            end) with (String.prefix sub (String c s1)).
    change (match sub with
            | "" => true
            | String a sub' =>
              if Ascii.ascii_dec a c then String.prefix sub' (s1 +:+ s2) else false
            end) with (String.prefix sub (String c s1 +:+ s2)).
    rewrite !orb_true_iff. intros [H|H]; [left | right; by apply IH].
    by apply (prefix_app_l (String c s1) sub s2).
Qed.

Lemma Contains_cons c s sub : Contains s sub = true → Contains (String c s) sub = true.
Proof. intros H. cbn [Contains]. rewrite H. apply orb_true_r. Qed.

Lemma Contains_app_r s1 s2 sub :
  Contains s2 sub = true → Contains (s1 +:+ s2) sub = true.
Proof. intros H. induction s1 as [|c s1 IH]; [done|]. by apply Contains_cons. Qed.

Lemma Ident_label_holds name obj prefix sub :
  Contains name sub = true ∨ Contains prefix sub = true →
  Contains (Label (Ident name obj prefix)) sub = true.
Proof.
  unfold Ident, struct, LabelStruct. cbn [Label map fst snd String.concat].
  intros [H|H].
  - apply Contains_app_r, Contains_app_r, Contains_app_r, Contains_app_l.
    by apply Contains_app_r, Contains_app_r.
  - apply Contains_app_l. destruct (String.eqb_spec prefix "") as [->|_].
    + by destruct sub.
    + by apply Contains_app_l.
Qed.

(** An identifier whose name, or whose place in its parent, holds one of the
    words [Fun], [Key], [Type] is no trackable label: the callee of a call
    and a parameter type are left out, and so is a variable named
    [accountKey]. *)
Theorem identifiers_holding_excluded_words_are_not_tracked
    (name : string) (obj : option string) (prefix : string) :
  holdsExcludedWord name ∨ holdsExcludedWord prefix →
  isBasicLabel (Ident name obj prefix) = false.
Proof.
  unfold holdsExcludedWord, isBasicLabel. intros H.
  assert (Hl : Contains (Label (Ident name obj prefix)) "Fun" = true ∨
               Contains (Label (Ident name obj prefix)) "Key" = true ∨
               Contains (Label (Ident name obj prefix)) "Type" = true).
  { destruct H as [[H|[H|H]]|[H|[H|H]]];
      [left | right; left | right; right | left | right; left | right; right];
      apply Ident_label_holds; auto. }
  destruct (Contains (Label (Ident name obj prefix)) "Fun"); [reflexivity|].
  destruct (Contains (Label (Ident name obj prefix)) "Key"); [reflexivity|].
  destruct (Contains (Label (Ident name obj prefix)) "Type"); [reflexivity|].
  by destruct Hl as [? | [? | ?]].
Qed.

(** The theorem at the variable [accountKey] as a call argument. *)
Lemma identifiers_holding_excluded_words_are_not_tracked_witness :
  isBasicLabel (var "accountKey" "0") = false.
Proof.
  apply identifiers_holding_excluded_words_are_not_tracked.
  left. right. left. vm_compute. reflexivity.
Defined.

(** ** Resolving the left-hand side against the wanted labels *)

Lemma removeFirstEqual_count x labels :
  length labels =
  (length (fst (removeFirstEqual x labels)) +
   if snd (removeFirstEqual x labels) then 1 else 0)%nat.
Proof.
  induction labels as [|e rest IH]; cbn; [reflexivity|].
  destruct (astNodeEqual x e); cbn; [lia|].
  destruct (removeFirstEqual x rest); cbn in *. lia.
Qed.

(** The loops that resolve the left-hand side of an assignment against the
    wanted labels only remove labels, at most one for each left-hand child,
    and the flag they raise tells whether one was removed. *)
Theorem left_hand_side_removes_one_label_each
    (targets labels labels' : list Ast) (flag' : bool) :
  resolveTargets targets labels false = (labels', flag') →
  labels' `sublist_of` labels ∧
  (length labels ≤ length labels' + length targets)%nat ∧
  (flag' = true ↔ (length labels' < length labels)%nat).
Proof.
  assert (Hgen : ∀ targets labels flag0 labels' flag',
            resolveTargets targets labels flag0 = (labels', flag') →
            labels' `sublist_of` labels ∧
            (length labels ≤ length labels' + length targets)%nat ∧
            (flag' = true ↔ flag0 = true ∨ (length labels' < length labels)%nat)).
  { clear. induction targets as [|z targets IH]; intros labels flag0 labels' flag';
      cbn [resolveTargets].
    - intros [= <- <-]. split; [done|]. split; [cbn; lia|]. split; [by left|].
      intros [?|?]; [done | lia].
    - pose proof (removeFirstEqual_sublist z labels) as Hsub.
      pose proof (removeFirstEqual_count z labels) as Hcount.
      destruct (removeFirstEqual z labels) as [labels1 removed]; cbn [fst snd] in *.
      intros H. apply IH in H as (Hs & Hl & Hf).
      split; [by etrans|]. split; [cbn [length]; destruct removed; lia|].
      rewrite Hf, orb_true_iff. apply sublist_length in Hs.
      destruct removed; cbn in Hcount.
      + split; intros _; [right; lia | left; by right].
      + split.
        * intros [[?|?]|?]; [by left | discriminate | right; lia].
        * intros [?|?]; [left; by left | right; lia]. }
  intros H. apply Hgen in H as (Hs & Hl & Hf). split; [done|]. split; [done|].
  rewrite Hf. split; [intros [?|?]; [done | done] | by right].
Qed.

(** The theorem at the target [x] and the labels [x], [a]. *)
Lemma left_hand_side_removes_one_label_each_witness :
  [var "a" "1"] `sublist_of` [var "x" "0"; var "a" "1"] ∧
  (length [var "x" "0"; var "a" "1"] ≤ length [var "a" "1"] + length [var "x" "0"])%nat ∧
  (true = true ↔ (length [var "a" "1"] < length [var "x" "0"; var "a" "1"])%nat).
Proof.
  apply (left_hand_side_removes_one_label_each [var "x" "0"]).
  vm_compute. reflexivity.
Defined.

(** ** Two declarations of one name *)

Lemma sweepDeclaration_flag_stays st decl st' :
  sweepDeclaration st decl = Some st' → flag st = true → flag st' = true.
Proof.
  intros H Hf. destruct (flag st') eqn:Hf'; [reflexivity|].
  apply sweepDeclaration_unchanged in H as ->; [|done]. congruence.
Qed.

(** The maps are keyed by the bare function name.  When a program declares
    the name twice (two methods on different receivers) and the two
    declarations get different GetState lists, each pass writes the entry
    twice and raises the flag: phase 2 never returns. *)
Theorem same_name_twice_never_settles
    (ast d1 d2 : Ast) (k : string) (g1 g2 : list nat) :
  Children ast = [d1; d2] →
  (∀ st, ∃ st', sweepDeclaration st d1 = Some st' ∧ GetStateMap st' !! k = Some g1) →
  (∀ st, ∃ st', sweepDeclaration st d2 = Some st' ∧ GetStateMap st' !! k = Some g2) →
  g1 ≠ g2 →
  ∀ fuel, analyzeReadWriteAPI fuel ast = StillRunning.
Proof.
  intros Hc H1 H2 Hne fuel. unfold analyzeReadWriteAPI.
  generalize (∅ : PositionMap) at 1 as G. generalize (∅ : PositionMap) as P.
  induction fuel as [|fuel IH]; intros P G; [reflexivity|].
  rewrite analyzeReadWriteAPI_from_S. unfold sweep. rewrite Hc. cbn [sweepDeclarations].
  destruct (H1 (mkSweep G P false)) as (st1 & -> & Hg1). cbn [mbind option_bind].
  destruct (H2 st1) as (st2 & Hd2 & Hg2). rewrite Hd2. cbn [mbind option_bind].
  destruct (flag st2) eqn:Hf; [apply IH|].
  apply sweepDeclaration_unchanged in Hd2 as ->; [|done]. congruence.
Qed.

(** A declaration whose two lists do not depend on the map writes its
    GetState entry in every pass. *)
Lemma sweepDeclaration_writes_entry (decl name body stmts : Ast)
    (arguments : list Ast) (gets puts : list nat) :
  Contains (Label decl) "FuncDecl" = true →
  declaredArgumentsFromEnd decl = Some arguments →
  child decl (len decl - 3) = Some name →
  child decl (len decl - 1) = Some body →
  Children body !! 0%nat = Some stmts →
  (∀ M, findGetOrPutStateList stmts M arguments true = Some gets) →
  (∀ M, findGetOrPutStateList stmts M arguments false = Some puts) →
  ∀ st, ∃ st', sweepDeclaration st decl = Some st' ∧
               GetStateMap st' !! attr name "Name" = Some gets.
Proof.
  intros Hf Ha Hn Hb Hs Hg Hp st. unfold sweepDeclaration.
  rewrite Hf, Ha. cbn [mbind option_bind]. rewrite Hn. cbn [mbind option_bind].
  rewrite Hb. cbn [mbind option_bind]. rewrite Hs. cbn [mbind option_bind].
  rewrite Hg. cbn [mbind option_bind]. rewrite Hp. cbn [mbind option_bind].
  eexists. split; [reflexivity|].
  destruct (decide (GetStateMap st !! attr name "Name" = Some gets)) as [He|He];
    destruct (decide (_ = Some puts)); cbn [GetStateMap]; by rewrite ?lookup_insert_eq.
Qed.

(** The theorem at two methods [Get] on two receivers. *)
Lemma same_name_twice_never_settles_witness :
  analyzeReadWriteAPI 7 (Decls [Methods.getA; Methods.getB]) = StillRunning.
Proof.
  apply (same_name_twice_never_settles _ (Methods.getA "0") (Methods.getB "1")
                                       "Get" [0%nat] [1%nat]).
  - vm_compute. reflexivity.
  - apply (sweepDeclaration_writes_entry
             (Methods.getA "0") (Ident "Get" None "Name")
             (BlockStmt loadAccount_body "Body") (slice "[]ast.Stmt" loadAccount_body "List")
             [var "id" "0"] [0%nat] []);
      try (vm_compute; reflexivity); intros M; vm_compute; reflexivity.
  - apply (sweepDeclaration_writes_entry
             (Methods.getB "1") (Ident "Get" None "Name")
             (BlockStmt loadAccount_body "Body") (slice "[]ast.Stmt" loadAccount_body "List")
             [var "n" "0"; var "id" "0"] [1%nat] []);
      try (vm_compute; reflexivity); intros M; vm_compute; reflexivity.
  - discriminate.
Defined.

(** ** Identifiers and field accesses under [astNodeEqual] *)

Lemma append_cons c (s t : string) : String c s +:+ t = String c (s +:+ t).
Proof. reflexivity. Qed.

Lemma append_assoc' (s1 s2 s3 : string) : (s1 +:+ s2) +:+ s3 = s1 +:+ (s2 +:+ s3).
Proof.
  induction s1 as [|c s1 IH]; [reflexivity|]. by rewrite !append_cons, IH.
Qed.

Lemma Contains_cons_eq c s sub :
  Contains (String c s) sub = String.prefix sub (String c s) || Contains s sub.
Proof. reflexivity. Qed.

(** An occurrence cannot start in [q] and end in [s]. *)
Lemma prefix_app_false q : ∀ sub s,
  String.prefix sub q = false → noSuffixStarts sub s = true →
  String.prefix sub (q +:+ s) = false.
Proof.
  induction q as [|c q IH]; intros [|a sub] s; rewrite ?append_cons; simpl;
    try discriminate.
  - intros _. rewrite andb_true_iff, negb_true_iff. by intros [? _].
  - rewrite andb_true_iff. intros H [_ Hs].
    destruct (Ascii.ascii_dec a c); [by apply IH | reflexivity].
Qed.

Lemma Contains_app_false p s sub :
  Contains p sub = false → noSuffixStarts sub s = true → Contains s sub = false →
  Contains (p +:+ s) sub = false.
Proof.
  intros Hp Hn Hs. induction p as [|c p IH]; [exact Hs|].
  rewrite Contains_cons_eq in Hp. apply orb_false_iff in Hp as [Hpre Hp].
  change (String c p +:+ s) with (String c (p +:+ s)). rewrite Contains_cons_eq.
  apply orb_false_iff. split; [|by apply IH].
  by apply (prefix_app_false (String c p) sub s).
Qed.

(** The label of an identifier bears a name, whatever its name and place. *)
Lemma Ident_nameBearing name obj prefix : nameBearing (Ident name obj prefix) = true.
Proof.
  unfold nameBearing, Ident, struct, LabelStruct. cbn [Label map fst snd String.concat].
  apply Contains_app_r, Contains_app_r, Contains_app_r, Contains_app_l, Contains_app_l.
  reflexivity.
Qed.

Lemma Ident_attr_Name name obj prefix : attr (Ident name obj prefix) "Name" = name.
Proof.
  unfold attr, Ident, struct. cbn [Attrs list_to_map foldr uncurry fst snd].
  by rewrite lookup_insert_eq.
Qed.

Lemma Ident_equal n1 o1 p1 n2 o2 p2 :
  astNodeEqual (Ident n1 o1 p1) (Ident n2 o2 p2) = true ↔ n1 = n2.
Proof.
  rewrite astNodeEqual_unfold, !Ident_nameBearing, !Ident_attr_Name. cbn [andb].
  apply String.eqb_eq.
Qed.

(** The label of a field access bears no name, unless its place does. *)
Lemma SelectorExpr_not_nameBearing x sel prefix :
  Contains prefix "Name" = false → nameBearing (SelectorExpr x sel prefix) = false.
Proof.
  intros Hp. unfold nameBearing, SelectorExpr, struct, LabelStruct. cbn [Label].
  destruct (String.eqb_spec prefix "") as [->|_]; [reflexivity|].
  rewrite append_assoc'. by apply Contains_app_false.
Qed.

Lemma SelectorExpr_equal x1 s1 p1 x2 s2 p2 :
  Contains p1 "Name" = false → Contains p2 "Name" = false →
  astNodeEqual (SelectorExpr x1 s1 p1) (SelectorExpr x2 s2 p2) = true ↔
  astNodeEqual (x1 "X") (x2 "X") = true ∧ s1 = s2.
Proof.
  intros H1 H2. rewrite astNodeEqual_unfold.
  rewrite (SelectorExpr_not_nameBearing x1 s1 p1 H1). cbn [andb Nat.eqb length Children
    SelectorExpr struct childrenEqual].
  rewrite <- (Ident_equal s1 None "Sel" s2 None "Sel").
  destruct (astNodeEqual (x1 "X") (x2 "X")); [|split; [discriminate | by intros [? _]]].
  destruct (astNodeEqual (Ident s1 None "Sel") (Ident s2 None "Sel"));
    [done | split; [discriminate | by intros [_ ?]]].
Qed.

(** Two field accesses on one object: both are trackable labels, neither has
    a [Name] attribute, so the attributes match, and they are not equal. *)
Lemma C3_field_access_counterexample :
  let key := SelectorExpr (var "account") "Key" "0" in
  let bytes := SelectorExpr (var "account") "Bytes" "1" in
  isBasicLabel key = true ∧ isBasicLabel bytes = true ∧
  Attrs key !! "Name" = None ∧ Attrs bytes !! "Name" = None ∧
  attr key "Name" = attr bytes "Name" ∧
  astNodeEqual key bytes = false.
Proof. repeat split; vm_compute; reflexivity. Qed.

(** C3, amended.  [astNodeEqual] on two nodes whose labels both bear a name
    is the equality of their [Name] attributes; the label of an identifier
    bears a name, so two identifiers are equal exactly when their names are.
    On every other pair it is: as many children on both sides and
    corresponding children equal, in order, recursively; the label of a
    field access bears no name (its place in the parent not bearing one), so
    two field accesses are equal exactly when their objects are equal and
    the selected names are the same. *)
Theorem C3_astNodeEqual_names_and_children
    (ast1 ast2 : Ast) (n1 n2 : string) (o1 o2 : option string) (q1 q2 : string)
    (x1 x2 : Node) (s1 s2 p1 p2 : string) :
  Contains p1 "Name" = false →
  Contains p2 "Name" = false →
  (astNodeEqual ast1 ast2 = true ↔
   (nameBearing ast1 && nameBearing ast2 = true ∧ attr ast1 "Name" = attr ast2 "Name") ∨
   (nameBearing ast1 && nameBearing ast2 = false ∧
    length (Children ast1) = length (Children ast2) ∧
    Forall2 (λ x y, astNodeEqual x y = true) (Children ast1) (Children ast2))) ∧
  nameBearing (Ident n1 o1 q1) = true ∧
  attr (Ident n1 o1 q1) "Name" = n1 ∧
  (astNodeEqual (Ident n1 o1 q1) (Ident n2 o2 q2) = true ↔ n1 = n2) ∧
  nameBearing (SelectorExpr x1 s1 p1) = false ∧
  (astNodeEqual (SelectorExpr x1 s1 p1) (SelectorExpr x2 s2 p2) = true ↔
   astNodeEqual (x1 "X") (x2 "X") = true ∧ s1 = s2).
Proof.
  intros H1 H2.
  split; [apply astNodeEqual_cases|].
  split; [apply Ident_nameBearing|].
  split; [apply Ident_attr_Name|].
  split; [apply Ident_equal|].
  split; [by apply SelectorExpr_not_nameBearing | by apply SelectorExpr_equal].
Qed.

(** The theorem at the statements [x := a + 1] and [b = x], the identifiers
    [x] and [y], and the field accesses [account.Key] and [account.Bytes] as
    arguments 0 and 1 of a call. *)
Lemma C3_astNodeEqual_names_and_children_witness :
  let s0 := AssignStmt [var "x"] ":=" [BinaryExpr (var "a") "+" (BasicLit "INT" "1")] "0" in
  let s1 := AssignStmt [var "b"] "=" [var "x"] "1" in
  (astNodeEqual s0 s1 = true ↔
   (nameBearing s0 && nameBearing s1 = true ∧ attr s0 "Name" = attr s1 "Name") ∨
   (nameBearing s0 && nameBearing s1 = false ∧
    length (Children s0) = length (Children s1) ∧
    Forall2 (λ x y, astNodeEqual x y = true) (Children s0) (Children s1))) ∧
  nameBearing (var "x" "0") = true ∧
  attr (var "x" "0") "Name" = "x" ∧
  (astNodeEqual (var "x" "0") (free "y" "1") = true ↔ "x" = "y") ∧
  nameBearing (SelectorExpr (var "account") "Key" "0") = false ∧
  (astNodeEqual (SelectorExpr (var "account") "Key" "0")
                (SelectorExpr (var "account") "Bytes" "1") = true ↔
   astNodeEqual (var "account" "X") (var "account" "X") = true ∧ "Key" = "Bytes").
Proof.
  intros s0 s1.
  apply (C3_astNodeEqual_names_and_children
           s0 s1 "x" "y" (Some "var") None "0" "1" (var "account") (var "account")
           "Key" "Bytes" "0" "1").
  - vm_compute. reflexivity.
  - vm_compute. reflexivity.
Defined.
